(** * Isometric voxel builder: the voxel grid engine

    A shallow embedding of the engine of the isometric voxel builder
    (src/utils/colors.ts, src/utils/isometric.ts, src/hooks/useVoxelGrid.ts)
    and the properties its specification states about it.

    Numbers.  Grid coordinates, block heights, timestamps and history indices
    are integers in the program (loop counters, slider steps, Date.now());
    they are modelled by [Z], which agrees with JavaScript numbers on the
    safe-integer range.  Brightness offsets, lighting angles and projected
    coordinates are IEEE-754 doubles and are modelled by the primitive
    binary64 [float].  The sort key of the painter's ordering, which the
    program computes from the coordinates with [*] and [+], is computed in
    binary64 as well.  [Math.sin], [Math.cos] and the conversion of a double
    to its decimal string are left to the JavaScript engine by the language
    standard; they are parameters of the rendering code. *)

From Stdlib Require Import ZArith List String Ascii Bool Lia.
From Stdlib Require Import Floats Uint63.
From Stdlib Require Import DecimalString HexadecimalString.
From Stdlib Require Import DecimalPos DecimalZ.
From Stdlib Require Import Permutation Sorted FinFun.
Import ListNotations.

Open Scope Z_scope.

Notation "s +++ t" := (String.append s%string t%string)
  (at level 60, right associativity).

(** ** The JavaScript built-ins the engine calls *)

Module JS.

(** The double-quote character, and a text between double quotes. *)
Definition dquote : string := String (ascii_of_nat 34) EmptyString.
Definition quoted (s : string) : string := dquote +++ s +++ dquote.

(** *** Numbers *)

(** An integer as a double (exact below 2^53 in magnitude). *)
Definition of_Z (z : Z) : float :=
  match z with
  | Z0 => PrimFloat.zero
  | Zpos _ => PrimFloat.of_uint63 (Uint63.of_Z z)
  | Zneg _ => PrimFloat.opp (PrimFloat.of_uint63 (Uint63.of_Z (- z)))
  end.

(** Two's complement reading of the low 32 bits. *)
Definition wrap32 (z : Z) : Z :=
  let m := z mod 4294967296 in
  if 2147483648 <=? m then m - 4294967296 else m.

(** [ToInt32] of a double: NaN, zeros and infinities give 0, a finite
    value is truncated toward zero and wrapped. *)
Definition ToInt32 (f : float) : Z :=
  match Prim2SF f with
  | S754_finite s m e =>
      let mag := Z.shiftl (Zpos m) e in
      wrap32 (if s then - mag else mag)
  | _ => 0
  end.

(** The integer a finite double holds, toward zero when it holds none; 0
    for the zeros, NaN and the infinities. *)
Definition integer_value (f : float) : Z :=
  match Prim2SF f with
  | S754_finite s m e =>
      let mag := Z.shiftl (Zpos m) e in
      if s then - mag else mag
  | _ => 0
  end.

(** [ToInt32] of the result of [parseInt] ([None] is NaN). *)
Definition ToInt32_parsed (n : option Z) : Z :=
  match n with
  | None => 0
  | Some z => wrap32 z
  end.

(** [a << n], [a >> n], [a & b], [a | b] on 32-bit integers. *)
Definition shl (a n : Z) : Z := wrap32 (Z.shiftl a (n mod 32)).
Definition sar (a n : Z) : Z := Z.shiftr a (n mod 32).
Definition band (a b : Z) : Z := Z.land a b.
Definition bor (a b : Z) : Z := Z.lor a b.

(** [Math.min] and [Math.max] of two doubles: NaN is contagious and -0 is
    below +0. *)
Definition Math_min (a b : float) : float :=
  if PrimFloat.is_nan a || PrimFloat.is_nan b then PrimFloat.nan
  else if PrimFloat.ltb a b then a
  else if PrimFloat.ltb b a then b
  else if PrimFloat.get_sign a then a else b.

Definition Math_max (a b : float) : float :=
  if PrimFloat.is_nan a || PrimFloat.is_nan b then PrimFloat.nan
  else if PrimFloat.ltb a b then b
  else if PrimFloat.ltb b a then a
  else if PrimFloat.get_sign a then b else a.

(** [Math.PI], the double nearest to pi. *)
Definition Math_PI : float := 0x1.921fb54442d18p+1%float.

(** *** Strings *)

(** [s.replace(c, '')] for a one-character pattern: the first occurrence
    is removed. *)
Fixpoint remove_first (c : ascii) (s : string) : string :=
  match s with
  | EmptyString => EmptyString
  | String a r => if Ascii.eqb a c then r else String a (remove_first c r)
  end.

Definition is_space (c : ascii) : bool :=
  let n := nat_of_ascii c in
  ((9 <=? n) && (n <=? 13))%nat || (n =? 32)%nat.

Definition hex_value (c : ascii) : option Z :=
  let n := Z.of_nat (nat_of_ascii c) in
  if (48 <=? n) && (n <=? 57) then Some (n - 48)
  else if (65 <=? n) && (n <=? 70) then Some (n - 55)
  else if (97 <=? n) && (n <=? 102) then Some (n - 87)
  else None.

Fixpoint skip_spaces (s : string) : string :=
  match s with
  | String a r => if is_space a then skip_spaces r else s
  | EmptyString => s
  end.

(** The value of the longest prefix of hexadecimal digits; [acc] is [None]
    until a digit has been read. *)
Fixpoint hex_prefix (s : string) (acc : option Z) : option Z :=
  match s with
  | String a r =>
      match hex_value a with
      | Some d =>
          hex_prefix r (Some (16 * match acc with Some v => v | None => 0 end + d))
      | None => acc
      end
  | EmptyString => acc
  end.

Definition strip_0x (s : string) : string :=
  match s with
  | String "0" (String "x" r) => r
  | String "0" (String "X" r) => r
  | _ => s
  end.

(** [parseInt(s, 16)]: leading white space, an optional sign, an optional
    [0x], then the longest run of hexadecimal digits; [None] is NaN.  The
    result is the exact integer (a double is exact up to 13 digits). *)
Definition parseInt16 (s : string) : option Z :=
  let s := skip_spaces s in
  let '(neg, s) :=
    match s with
    | String "-" r => (true, r)
    | String "+" r => (false, r)
    | _ => (false, s)
    end in
  match hex_prefix (strip_0x s) None with
  | Some v => Some (if neg then - v else v)
  | None => None
  end.

(** [n.toString(16)] of an integer: lower-case digits, a minus sign for a
    negative one. *)
Definition toString16 (z : Z) : string :=
  let digits (n : N) := HexadecimalString.NilZero.string_of_uint (N.to_hex_uint n) in
  match z with
  | Z0 => "0"
  | Zpos p => digits (Npos p)
  | Zneg p => "-" +++ digits (Npos p)
  end.

(** [String(n)] of an integer (below 10^21 in magnitude). *)
Definition toString10 (z : Z) : string :=
  DecimalString.NilZero.string_of_int (Z.to_int z).

Fixpoint repeat_char (c : ascii) (n : nat) : string :=
  match n with
  | O => EmptyString
  | S k => String c (repeat_char c k)
  end.

(** [s.padStart(n, c)] for a one-character filler. *)
Definition padStart (n : nat) (c : ascii) (s : string) : string :=
  repeat_char c (n - String.length s) +++ s.

(** [parts.join(sep)]. *)
Fixpoint join (sep : string) (parts : list string) : string :=
  match parts with
  | [] => EmptyString
  | [p] => p
  | p :: rest => p +++ sep +++ join sep rest
  end.

Definition newline : string := String (ascii_of_nat 10) EmptyString.

(** *** Arrays *)

(** [l.slice(0, e)]: a negative end counts from the end of the array. *)
Definition slice0 {A : Type} (l : list A) (e : Z) : list A :=
  let len := Z.of_nat (List.length l) in
  let k := if e <? 0 then Z.max (len + e) 0 else Z.min e len in
  firstn (Z.to_nat k) l.

(** [l[i]]: [None] is [undefined]. *)
Definition index {A : Type} (l : list A) (i : Z) : option A :=
  if i <? 0 then None else nth_error l (Z.to_nat i).

(** [l.shift()]: the array without its first element. *)
Definition shift {A : Type} (l : list A) : list A := tl l.

(** [l.sort(cmp)]: the sort is stable; [cmp a b] is negative when [a]
    goes first.  Each element is inserted before the first element of the
    sorted rest that does not go before it. *)
Fixpoint insert_sorted {A : Type} (cmp : A -> A -> Z) (a : A) (l : list A) : list A :=
  match l with
  | [] => [a]
  | b :: r => if cmp a b <=? 0 then a :: b :: r else b :: insert_sorted cmp a r
  end.

Definition sort {A : Type} (cmp : A -> A -> Z) (l : list A) : list A :=
  fold_right (insert_sorted cmp) [] l.

(** *** Map with string keys

    A [Map] iterates in insertion order: [set] on a present key keeps the
    place of the entry, [set] on an absent key appends. *)
Module Map.
Definition t (V : Type) : Type := list (string * V).

Definition empty {V : Type} : t V := [].

Fixpoint get {V : Type} (k : string) (m : t V) : option V :=
  match m with
  | [] => None
  | (k', v) :: r => if String.eqb k' k then Some v else get k r
  end.

Definition has {V : Type} (k : string) (m : t V) : bool :=
  match get k m with Some _ => true | None => false end.

Fixpoint set {V : Type} (k : string) (v : V) (m : t V) : t V :=
  match m with
  | [] => [(k, v)]
  | (k', v') :: r =>
      if String.eqb k' k then (k', v) :: r else (k', v') :: set k v r
  end.

Fixpoint delete {V : Type} (k : string) (m : t V) : t V :=
  match m with
  | [] => []
  | (k', v') :: r => if String.eqb k' k then r else (k', v') :: delete k r
  end.

Definition size {V : Type} (m : t V) : Z := Z.of_nat (List.length m).

Definition values {V : Type} (m : t V) : list V := List.map snd m.
End Map.

End JS.

(** ** The text operations of [optimizeSVG]

    [\s] and [trim] are modelled on ASCII text, the text of the documents
    the composer builds: white space is tab, line feed, vertical tab, form
    feed, carriage return and space. *)

Module Text.

(** [s.replace(/\s+/g, ' ')]: every run of white space becomes one space.
    [inrun] tells that the character before was white space. *)
Fixpoint collapse (inrun : bool) (s : string) : string :=
  match s with
  | EmptyString => EmptyString
  | String c r =>
      if JS.is_space c
      then (if inrun then collapse true r else String " " (collapse true r))
      else String c (collapse false r)
  end.

Definition replaceSpaces (s : string) : string := collapse false s.

(** The text from the next [<] on, when [s] is a run of one white space
    or more followed by [<]. *)
Definition gap (s : string) : option string :=
  match s with
  | String c r =>
      if JS.is_space c
      then match JS.skip_spaces r with
           | String "<" t => Some (String "<" t)
           | _ => None
           end
      else None
  | EmptyString => None
  end.

(** [s.replace(/>\s+</g, '><')].  The matches cannot overlap, so each [>]
    is looked at on its own: the white space between it and a following [<]
    goes. *)
Fixpoint squeezeTags (s : string) : string :=
  match s with
  | EmptyString => EmptyString
  | String c r =>
      let r' := squeezeTags r in
      if Ascii.eqb c ">"
      then match gap r' with
           | Some t => String ">" t
           | None => String ">" r'
           end
      else String c r'
  end.

Fixpoint trimEnd (s : string) : string :=
  match s with
  | EmptyString => EmptyString
  | String c r =>
      match trimEnd r with
      | EmptyString => if JS.is_space c then EmptyString else String c EmptyString
      | r' => String c r'
      end
  end.

(** [s.trim()] *)
Definition trim (s : string) : string := trimEnd (JS.skip_spaces s).

(** The characters of a text that are not white space, in order. *)
Fixpoint ink (s : string) : string :=
  match s with
  | EmptyString => EmptyString
  | String c r => if JS.is_space c then ink r else String c (ink r)
  end.

(** Every character of the text satisfies [P]. *)
Fixpoint all_chars (P : ascii -> Prop) (s : string) : Prop :=
  match s with
  | EmptyString => True
  | String c r => P c /\ all_chars P r
  end.

(** The last character of a text, if any. *)
Fixpoint last_char (s : string) : option ascii :=
  match s with
  | EmptyString => None
  | String c EmptyString => Some c
  | String _ r => last_char r
  end.

End Text.

(** ** src/utils/colors.ts *)

Module Colors.

(** [TECH_COLORS[0].hex]. *)
Definition electric_blue : string := "#3B82F6".

Definition channel (v : Z) (amount : float) : float :=
  JS.Math_max (JS.of_Z 0) (JS.Math_min (JS.of_Z 255) (PrimFloat.add (JS.of_Z v) amount)).

Definition adjustBrightness (hex : string) (amount : float) : string :=
  let num := JS.ToInt32_parsed (JS.parseInt16 (JS.remove_first "#" hex)) in
  let r := channel (JS.band (JS.sar num 16) 255) amount in
  let g := channel (JS.band (JS.sar num 8) 255) amount in
  let b := channel (JS.band num 255) amount in
  "#" +++ JS.padStart 6 "0"
    (JS.toString16
       (JS.bor (JS.bor (JS.shl (JS.ToInt32 r) 16) (JS.shl (JS.ToInt32 g) 8))
               (JS.ToInt32 b))).

(** [hexToRgb]: the pattern [/^#?([a-f\d]{2})([a-f\d]{2})([a-f\d]{2})$/i]
    accepts an optional [#] and exactly six hexadecimal digits; [None] is
    the thrown [Error]. *)
Definition hexToRgb (hex : string) : option (Z * Z * Z) :=
  let body := match hex with String "#" r => r | _ => hex end in
  match body with
  | String a (String b (String c (String d (String e (String f EmptyString))))) =>
      match JS.hex_value a, JS.hex_value b, JS.hex_value c,
            JS.hex_value d, JS.hex_value e, JS.hex_value f with
      | Some a, Some b, Some c, Some d, Some e, Some f =>
          Some (16 * a + b, 16 * c + d, 16 * e + f)
      | _, _, _, _, _, _ => None
      end
  | _ => None
  end.

End Colors.

(** ** src/types/voxel.ts *)

Module Voxel.
Record t : Type := mk { x : Z; y : Z; height : Z; color : string }.
End Voxel.

Module IsometricCoords.
Record t : Type := mk { x : float; y : float }.
End IsometricCoords.

Module VoxelFace.
Record t : Type := mk { path : string; fill : string }.
End VoxelFace.

Definition VoxelMap : Type := JS.Map.t Voxel.t.

Module HistoryState.
Record t : Type := mk { voxels : VoxelMap; timestamp : Z }.
End HistoryState.

(** ** src/utils/isometric.ts *)

Module Isometric.

Inductive FaceType : Type := FaceTop | FaceLeft | FaceRight.

Section Engine.

(** [Math.sin], [Math.cos], and the decimal text of a double as a
    template literal prints it. *)
Variables Math_sin Math_cos : float -> float.
Variable Number_toString : float -> string.

Local Open Scope float_scope.

Definition ISO_ANGLE : float := JS.Math_PI / 6.
Definition ISO_SCALE : float := 20.

Definition gridToIsometric (x y z : float) : IsometricCoords.t :=
  let isoX := (x - y) * Math_cos ISO_ANGLE * ISO_SCALE in
  let isoY := (x + y) * Math_sin ISO_ANGLE * ISO_SCALE - z * ISO_SCALE in
  IsometricCoords.mk isoX isoY.

Definition calculateLighting (lightingAngle : float) (faceType : FaceType) : float :=
  let angleRad := (lightingAngle * JS.Math_PI) / 180 in
  match faceType with
  | FaceTop => 0
  | FaceLeft => -20 + Math_sin angleRad * 10
  | FaceRight => -30 + Math_cos angleRad * 10
  end.

(** [`M ${p1.x} ${p1.y} L ${p2.x} ${p2.y} L ${p3.x} ${p3.y} L ${p4.x} ${p4.y} Z`] *)
Definition quad (p1 p2 p3 p4 : IsometricCoords.t) : string :=
  let pt (p : IsometricCoords.t) :=
    Number_toString (IsometricCoords.x p) +++ " " +++ Number_toString (IsometricCoords.y p) in
  "M " +++ pt p1 +++ " L " +++ pt p2 +++ " L " +++ pt p3 +++ " L " +++ pt p4 +++ " Z".

Definition generateVoxelFace (voxel : Voxel.t) (faceType : FaceType)
    (lightingAngle : float) : VoxelFace.t :=
  let x := Voxel.x voxel in
  let y := Voxel.y voxel in
  let height := JS.of_Z (Voxel.height voxel) in
  let color := Voxel.color voxel in
  let lighting := calculateLighting lightingAngle faceType in
  let fill := Colors.adjustBrightness color lighting in
  let at_ (gx gy : Z) (gz : float) := gridToIsometric (JS.of_Z gx) (JS.of_Z gy) gz in
  let path :=
    match faceType with
    | FaceTop =>
        quad (at_ x y height) (at_ (x + 1)%Z y height)
             (at_ (x + 1)%Z (y + 1)%Z height) (at_ x (y + 1)%Z height)
    | FaceLeft =>
        quad (at_ x y height) (at_ x (y + 1)%Z height)
             (at_ x (y + 1)%Z 0) (at_ x y 0)
    | FaceRight =>
        quad (at_ (x + 1)%Z y height) (at_ (x + 1)%Z (y + 1)%Z height)
             (at_ (x + 1)%Z (y + 1)%Z 0) (at_ (x + 1)%Z y 0)
    end in
  VoxelFace.mk path fill.

(** The sort key of the painter's ordering, [a.y + a.x * 100], as the
    program computes it: in binary64, where the product and the sum are
    rounded once they pass 2^53. *)
Definition orderDouble (v : Voxel.t) : float :=
  JS.of_Z (Voxel.y v) + JS.of_Z (Voxel.x v) * 100.

(** The integer that key is: a double made of integers by [*] and [+] holds
    an integer. *)
Definition order (v : Voxel.t) : Z := JS.integer_value (orderDouble v).

(** The comparator, [orderA - orderB].  The sort reads the sign of the
    result only, and the difference of two finite doubles has the sign of
    their exact difference. *)
Definition compareOrder (a b : Voxel.t) : Z := (order a - order b)%Z.

Definition sortedVoxels (voxels : VoxelMap) : list Voxel.t :=
  JS.sort compareOrder (JS.Map.values voxels).

(** [`<path d="${face.path}" fill="${face.fill}" stroke="#1e293b" stroke-width="0.5"/>`] *)
Definition pathElement (face : VoxelFace.t) : string :=
  "<path d=" +++ JS.quoted (VoxelFace.path face)
    +++ " fill=" +++ JS.quoted (VoxelFace.fill face)
    +++ " stroke=" +++ JS.quoted "#1e293b"
    +++ " stroke-width=" +++ JS.quoted "0.5" +++ "/>".

(** What one round of the loop over the sorted voxels pushes on [faces]. *)
Definition voxelFaces (lightingAngle : float) (voxel : Voxel.t) : list string :=
  [ pathElement (generateVoxelFace voxel FaceRight lightingAngle);
    pathElement (generateVoxelFace voxel FaceLeft lightingAngle);
    pathElement (generateVoxelFace voxel FaceTop lightingAngle) ].

(** The array [faces] when the loop is over. *)
Definition sceneFaces (voxels : VoxelMap) (lightingAngle : float) : list string :=
  flat_map (voxelFaces lightingAngle) (sortedVoxels voxels).

(** The running bounds [minX], [minY], [maxX], [maxY]. *)
Record Bounds : Type := mkBounds { minX : float; minY : float; maxX : float; maxY : float }.

Definition noBounds : Bounds :=
  mkBounds PrimFloat.infinity PrimFloat.infinity PrimFloat.neg_infinity PrimFloat.neg_infinity.

Definition corners (voxel : Voxel.t) : list IsometricCoords.t :=
  let x := Voxel.x voxel in
  let y := Voxel.y voxel in
  let height := JS.of_Z (Voxel.height voxel) in
  let at_ (gx gy : Z) (gz : float) := gridToIsometric (JS.of_Z gx) (JS.of_Z gy) gz in
  [ at_ x y height; at_ (x + 1)%Z y height;
    at_ (x + 1)%Z (y + 1)%Z height; at_ x (y + 1)%Z height;
    at_ x y 0; at_ (x + 1)%Z y 0;
    at_ (x + 1)%Z (y + 1)%Z 0; at_ x (y + 1)%Z 0 ].

Definition addCorner (b : Bounds) (corner : IsometricCoords.t) : Bounds :=
  mkBounds (JS.Math_min (minX b) (IsometricCoords.x corner))
           (JS.Math_min (minY b) (IsometricCoords.y corner))
           (JS.Math_max (maxX b) (IsometricCoords.x corner))
           (JS.Math_max (maxY b) (IsometricCoords.y corner)).

Definition sceneBounds (voxels : VoxelMap) : Bounds :=
  fold_left (fun b voxel => fold_left addCorner (corners voxel) b)
            (sortedVoxels voxels) noBounds.

Definition emptyScene : string :=
  "<svg xmlns=" +++ JS.quoted "http://www.w3.org/2000/svg"
    +++ " viewBox=" +++ JS.quoted "0 0 400 400" +++ "></svg>".

Definition generateSceneSVG (voxels : VoxelMap) (lightingAngle : float) : string :=
  if (JS.Map.size voxels =? 0)%Z then emptyScene
  else
    let faces := sceneFaces voxels lightingAngle in
    let b := sceneBounds voxels in
    let padding := 40 in
    let width := maxX b - minX b + padding * 2 in
    let height := maxY b - minY b + padding * 2 in
    let viewBoxX := minX b - padding in
    let viewBoxY := minY b - padding in
    "<svg xmlns=" +++ JS.quoted "http://www.w3.org/2000/svg"
      +++ " viewBox="
      +++ JS.quoted (Number_toString viewBoxX +++ " " +++ Number_toString viewBoxY
                     +++ " " +++ Number_toString width +++ " " +++ Number_toString height)
      +++ " preserveAspectRatio=" +++ JS.quoted "xMidYMid meet" +++ ">" +++ JS.newline
      +++ "  <g>" +++ JS.newline
      +++ "    " +++ JS.join (JS.newline +++ "    ") faces +++ JS.newline
      +++ "  </g>" +++ JS.newline
      +++ "</svg>".

End Engine.

(** [svg.replace(/\s+/g, ' ').replace(/>\s+</g, '><').trim()] *)
Definition optimizeSVG (svg : string) : string :=
  Text.trim (Text.squeezeTags (Text.replaceSpaces svg)).

End Isometric.

(** ** src/hooks/useVoxelGrid.ts

    The hook keeps six state cells.  Every handler is a closure over the
    cells of the latest render and React renders between two discrete
    events, so a handler is a function from the state it sees to the state
    of the next render.  [Date.now()] is an argument of the handlers that
    take a snapshot. *)

Module useVoxelGrid.

Definition MAX_HISTORY : Z := 50.

Record State : Type := mkState {
  voxels : VoxelMap;
  selectedColor : string;
  blockHeight : Z;
  lightingAngle : float;
  history : list HistoryState.t;
  historyIndex : Z
}.

(** [useState] initial values. *)
Definition initial : State :=
  mkState JS.Map.empty Colors.electric_blue 1 45%float [] (-1).

Definition setVoxels (v : VoxelMap) (st : State) : State :=
  mkState v (selectedColor st) (blockHeight st) (lightingAngle st)
          (history st) (historyIndex st).

Definition setSelectedColor (c : string) (st : State) : State :=
  mkState (voxels st) c (blockHeight st) (lightingAngle st)
          (history st) (historyIndex st).

Definition setBlockHeight (h : Z) (st : State) : State :=
  mkState (voxels st) (selectedColor st) h (lightingAngle st)
          (history st) (historyIndex st).

Definition setLightingAngle (a : float) (st : State) : State :=
  mkState (voxels st) (selectedColor st) (blockHeight st) a
          (history st) (historyIndex st).

Definition setHistory (h : list HistoryState.t) (st : State) : State :=
  mkState (voxels st) (selectedColor st) (blockHeight st) (lightingAngle st)
          h (historyIndex st).

Definition setHistoryIndex (i : Z) (st : State) : State :=
  mkState (voxels st) (selectedColor st) (blockHeight st) (lightingAngle st)
          (history st) i.

(** [`${x},${y}`] *)
Definition getKey (x y : Z) : string :=
  JS.toString10 x +++ "," +++ JS.toString10 y.

Definition saveToHistory (newVoxels : VoxelMap) (now : Z) (st : State) : State :=
  let newHistory :=
    JS.slice0 (history st) (historyIndex st + 1)
      ++ [HistoryState.mk newVoxels now] in
  if MAX_HISTORY <? Z.of_nat (List.length newHistory)
  then setHistory (JS.shift newHistory) st
  else setHistory newHistory (setHistoryIndex (historyIndex st + 1) st).

Definition addVoxel (x y : Z) (now : Z) (st : State) : State :=
  let key := getKey x y in
  let newVoxels :=
    match JS.Map.get key (voxels st) with
    | Some existingVoxel =>
        if String.eqb (Voxel.color existingVoxel) (selectedColor st)
        then JS.Map.set key
               (Voxel.mk (Voxel.x existingVoxel) (Voxel.y existingVoxel)
                         (blockHeight st) (Voxel.color existingVoxel))
               (voxels st)
        else JS.Map.set key (Voxel.mk x y (blockHeight st) (selectedColor st))
               (voxels st)
    | None =>
        JS.Map.set key (Voxel.mk x y (blockHeight st) (selectedColor st))
          (voxels st)
    end in
  saveToHistory newVoxels now (setVoxels newVoxels st).

Definition removeVoxel (x y : Z) (now : Z) (st : State) : State :=
  let key := getKey x y in
  if JS.Map.has key (voxels st)
  then
    let newVoxels := JS.Map.delete key (voxels st) in
    saveToHistory newVoxels now (setVoxels newVoxels st)
  else st.

Definition clearGrid (now : Z) (st : State) : State :=
  let newVoxels : VoxelMap := JS.Map.empty in
  saveToHistory newVoxels now (setVoxels newVoxels st).

(** [undo] and [redo] read [history[newIndex].voxels]: on an index outside
    the array this is a property read on [undefined], a [TypeError],
    modelled by [None]. *)
Definition undo (st : State) : option State :=
  if 0 <? historyIndex st then
    let newIndex := historyIndex st - 1 in
    match JS.index (history st) newIndex with
    | Some h => Some (setVoxels (HistoryState.voxels h) (setHistoryIndex newIndex st))
    | None => None
    end
  else Some st.

Definition redo (st : State) : option State :=
  if historyIndex st <? Z.of_nat (List.length (history st)) - 1 then
    let newIndex := historyIndex st + 1 in
    match JS.index (history st) newIndex with
    | Some h => Some (setVoxels (HistoryState.voxels h) (setHistoryIndex newIndex st))
    | None => None
    end
  else Some st.

Definition hasVoxel (x y : Z) (st : State) : bool :=
  JS.Map.has (getKey x y) (voxels st).

Definition getVoxel (x y : Z) (st : State) : option Voxel.t :=
  JS.Map.get (getKey x y) (voxels st).

Definition canUndo (st : State) : bool := 0 <? historyIndex st.

Definition canRedo (st : State) : bool :=
  historyIndex st <? Z.of_nat (List.length (history st)) - 1.

(** The calls the application makes on the hook, one per event. *)
Inductive Event : Type :=
| AddVoxel (x y now : Z)
| RemoveVoxel (x y now : Z)
| ClearGrid (now : Z)
| Undo
| Redo
| SetSelectedColor (c : string)
| SetBlockHeight (h : Z)
| SetLightingAngle (a : float).

Definition step (e : Event) (st : State) : option State :=
  match e with
  | AddVoxel x y now => Some (addVoxel x y now st)
  | RemoveVoxel x y now => Some (removeVoxel x y now st)
  | ClearGrid now => Some (clearGrid now st)
  | Undo => undo st
  | Redo => redo st
  | SetSelectedColor c => Some (setSelectedColor c st)
  | SetBlockHeight h => Some (setBlockHeight h st)
  | SetLightingAngle a => Some (setLightingAngle a st)
  end.

Fixpoint run (es : list Event) (st : State) : option State :=
  match es with
  | [] => Some st
  | e :: rest =>
      match step e st with
      | Some st' => run rest st'
      | None => None
      end
  end.

(** The states the application can be in. *)
Definition reachable (st : State) : Prop :=
  exists es, run es initial = Some st.

(** The store operation [upsert(x, y, height, color)] of the engine's
    interface: the height slider and the colour picker set the two cells
    that [addVoxel] reads, then the grid calls [addVoxel]. *)
Definition upsertVoxel (x y height : Z) (color : string) (now : Z) (st : State) : State :=
  addVoxel x y now (setSelectedColor color (setBlockHeight height st)).

(** [renderScene(angle)]: the preview and the export call
    [generateSceneSVG] on the store. *)
Definition renderScene (Math_sin Math_cos : float -> float)
    (Number_toString : float -> string) (angle : float) (st : State) : string :=
  Isometric.generateSceneSVG Math_sin Math_cos Number_toString (voxels st) angle.

End useVoxelGrid.

(** ** The application shell (App.tsx): the keyboard shortcuts *)

Module App.

(** [setBlockHeight((prev) => Math.max(1, prev - 1))], on Shift+H. *)
Definition heightDown (prev : Z) : Z := Z.max 1 (prev - 1).

(** [setBlockHeight((prev) => Math.min(10, prev + 1))], on H. *)
Definition heightUp (prev : Z) : Z := Z.min 10 (prev + 1).

(** The preset colours of the keys 1 to 6. *)
Definition colors : list string :=
  ["#3B82F6"; "#8B5CF6"; "#10B981"; "#F59E0B"; "#14B8A6"; "#475569"]%string.

(** [if (num >= 1 && num <= 6) setSelectedColor(colors[num - 1])]: the
    colour a digit key selects, if any. *)
Definition presetColor (num : Z) : option string :=
  if (1 <=? num) && (num <=? 6) then JS.index colors (num - 1) else None.

End App.

(** ** src/components/Grid.tsx: the pointer handlers of the grid

    The component keeps three state cells and hands every edit to the two
    callbacks it was given.  A handler is a function from the state of the
    latest render to the calls it makes and the state of the next render. *)

Module Grid.

Inductive DragMode : Type := ModeAdd | ModeRemove.

Record State : Type := mkState {
  hoveredCell : option (Z * Z);
  isDragging : bool;
  dragMode : option DragMode
}.

Definition initial : State := mkState None false None.

(** The calls on the callbacks of the properties. *)
Inductive Call : Type :=
| onCellClick (x y : Z)
| onCellRightClick (x y : Z).

(** What the handlers read of a mouse event. *)
Record MouseEvent : Type := mkMouse { shiftKey : bool; button : Z }.

(** [event.shiftKey || event.button === 2] *)
Definition removes (event : MouseEvent) : bool :=
  shiftKey event || (button event =? 2).

Definition handleCellClick (x y : Z) (event : MouseEvent) (ui : State) : list Call * State :=
  if removes event
  then ([onCellRightClick x y], mkState (hoveredCell ui) (isDragging ui) (Some ModeRemove))
  else ([onCellClick x y], mkState (hoveredCell ui) (isDragging ui) (Some ModeAdd)).

Definition handleMouseDown (x y : Z) (event : MouseEvent) (ui : State) : list Call * State :=
  if removes event
  then ([onCellRightClick x y], mkState (hoveredCell ui) true (Some ModeRemove))
  else ([onCellClick x y], mkState (hoveredCell ui) true (Some ModeAdd)).

(** The call a drag makes on a cell. *)
Definition dragCall (mode : DragMode) (x y : Z) : Call :=
  match mode with
  | ModeAdd => onCellClick x y
  | ModeRemove => onCellRightClick x y
  end.

Definition handleMouseEnter (x y : Z) (ui : State) : list Call * State :=
  let ui' := mkState (Some (x, y)) (isDragging ui) (dragMode ui) in
  match isDragging ui, dragMode ui with
  | true, Some mode => ([dragCall mode x y], ui')
  | _, _ => ([], ui')
  end.

Definition handleMouseUp (ui : State) : list Call * State :=
  ([], mkState (hoveredCell ui) false None).

Definition handleTouchStart (x y : Z) (ui : State) : list Call * State :=
  ([onCellClick x y], mkState (hoveredCell ui) true (Some ModeAdd)).

(** [target] is the cell of the element under the finger, if that element
    is a cell of the grid. *)
Definition handleTouchMove (target : option (Z * Z)) (ui : State) : list Call * State :=
  match isDragging ui, dragMode ui with
  | true, Some mode =>
      match target with
      | Some (x, y) => ([dragCall mode x y], ui)
      | None => ([], ui)
      end
  | _, _ => ([], ui)
  end.

Definition handleTouchEnd (ui : State) : list Call * State :=
  ([], mkState (hoveredCell ui) false None).

Definition handleContextMenu (x y : Z) (ui : State) : list Call * State :=
  ([onCellRightClick x y], ui).

Definition handleKeyDown (x y : Z) (key : string) (shift : bool) (ui : State) :
    list Call * State :=
  if String.eqb key "Enter" || String.eqb key " "
  then ((if shift then [onCellRightClick x y] else [onCellClick x y]), ui)
  else ([], ui).

Definition handleMouseLeave (ui : State) : list Call * State :=
  ([], mkState None (isDragging ui) (dragMode ui)).

(** The events of a cell and of the window. *)
Inductive Event : Type :=
| Click (x y : Z) (event : MouseEvent)
| MouseDown (x y : Z) (event : MouseEvent)
| MouseEnter (x y : Z)
| MouseLeave
| MouseUp
| TouchStart (x y : Z)
| TouchMove (target : option (Z * Z))
| TouchEnd
| ContextMenu (x y : Z)
| KeyDown (x y : Z) (key : string) (shift : bool).

Definition handle (e : Event) (ui : State) : list Call * State :=
  match e with
  | Click x y event => handleCellClick x y event ui
  | MouseDown x y event => handleMouseDown x y event ui
  | MouseEnter x y => handleMouseEnter x y ui
  | MouseLeave => handleMouseLeave ui
  | MouseUp => handleMouseUp ui
  | TouchStart x y => handleTouchStart x y ui
  | TouchMove target => handleTouchMove target ui
  | TouchEnd => handleTouchEnd ui
  | ContextMenu x y => handleContextMenu x y ui
  | KeyDown x y key shift => handleKeyDown x y key shift ui
  end.

(** The calls of a sequence of events, in order, and the state it leaves. *)
Fixpoint run (es : list Event) (ui : State) : list Call * State :=
  match es with
  | [] => ([], ui)
  | e :: rest =>
      let '(calls, ui') := handle e ui in
      let '(more, ui'') := run rest ui' in
      (calls ++ more, ui'')
  end.

(** The pointer moves: they press nothing. *)
Definition is_move (e : Event) : Prop :=
  match e with
  | MouseEnter _ _ | MouseLeave | TouchMove _ => True
  | _ => False
  end.

End Grid.

(** ** Reading a scene *)

(** The number of places of [s] where [pat] starts. *)
Fixpoint occurrences (pat s : string) : nat :=
  match s with
  | EmptyString => O
  | String _ r => ((if String.prefix pat s then 1 else 0) + occurrences pat r)%nat
  end.

(** ** The vocabulary of the specification *)

(** The ranges of the data model: a 20 x 20 grid, heights 1 to 10, colours
    that [hexToRgb] accepts. *)
Definition validCoordinate (x y : Z) : Prop := 0 <= x <= 19 /\ 0 <= y <= 19.
Definition validHeight (height : Z) : Prop := 1 <= height <= 10.
Definition validColor (color : string) : Prop := Colors.hexToRgb color <> None.

(** Ascending order of the voxels' sort keys. *)
Definition ascending : list Voxel.t -> Prop :=
  StronglySorted (fun a b => Isometric.order a <= Isometric.order b).

(** The invariant of the history: the index points into the snapshots, it
    is -1 only when there is none, and there are at most 50 of them. *)
Definition history_invariant (st : useVoxelGrid.State) : Prop :=
  -1 <= useVoxelGrid.historyIndex st < Z.of_nat (List.length (useVoxelGrid.history st))
  /\ (useVoxelGrid.historyIndex st = -1 -> useVoxelGrid.history st = [])
  /\ Z.of_nat (List.length (useVoxelGrid.history st)) <= useVoxelGrid.MAX_HISTORY.

(** The snapshots up to the index, then the new one: the array
    [saveToHistory] holds before it looks at the bound. *)
Definition appended (newVoxels : VoxelMap) (now : Z) (st : useVoxelGrid.State) :
    list HistoryState.t :=
  firstn (Z.to_nat (useVoxelGrid.historyIndex st + 1)) (useVoxelGrid.history st)
    ++ [HistoryState.mk newVoxels now].

(** An edit is a cell and the time of the click. *)
Definition Edit : Type := (Z * Z * Z)%type.

Definition applyEdit (st : useVoxelGrid.State) (e : Edit) : useVoxelGrid.State :=
  let '(x, y, now) := e in useVoxelGrid.addVoxel x y now st.

Definition applyEdits (es : list Edit) (st : useVoxelGrid.State) : useVoxelGrid.State :=
  fold_left applyEdit es st.

Definition editCell (e : Edit) : Z * Z := fst e.

Definition cellKey (c : Z * Z) : string := useVoxelGrid.getKey (fst c) (snd c).

Definition editKey (e : Edit) : string := cellKey (editCell e).

(** Whether the character occurs in the string. *)
Fixpoint has_char (c : ascii) (s : string) : bool :=
  match s with
  | EmptyString => false
  | String a r => Ascii.eqb a c || has_char c r
  end.

(** The snapshot each edit of a sequence takes, in order. *)
Fixpoint snapshots (es : list Edit) (st : useVoxelGrid.State) : list HistoryState.t :=
  match es with
  | [] => []
  | e :: rest =>
      let st' := applyEdit st e in
      HistoryState.mk (useVoxelGrid.voxels st') (snd e) :: snapshots rest st'
  end.

(** The index is on the last snapshot: nothing to redo. *)
Definition at_tip (st : useVoxelGrid.State) : Prop :=
  useVoxelGrid.historyIndex st = Z.of_nat (List.length (useVoxelGrid.history st)) - 1.

(** Sixty edits of sixty different cells: three rows of the grid, one cell
    per millisecond. *)
Definition sixtyCells : list Edit :=
  List.map (fun i => (Z.of_nat (i mod 20), Z.of_nat (i / 20), Z.of_nat i)) (seq 0 60).

(** [undo] called [n] times in a row. *)
Fixpoint undoTimes (n : nat) (st : useVoxelGrid.State) : option useVoxelGrid.State :=
  match n with
  | O => Some st
  | S k =>
      match useVoxelGrid.undo st with
      | Some st' => undoTimes k st'
      | None => None
      end
  end.

(** ** Well-formed stores and states *)

(** An entry of the store sits under the key of the cell its voxel names. *)
Definition keyed (kv : string * Voxel.t) : Prop :=
  fst kv = useVoxelGrid.getKey (Voxel.x (snd kv)) (Voxel.y (snd kv)).

(** A store as a [Map] of the hook is: no key twice, every entry keyed by
    its own cell. *)
Definition store_ok (m : VoxelMap) : Prop :=
  NoDup (List.map fst m) /\ Forall keyed m.

(** A property of stores that holds of the store and of every snapshot. *)
Definition all_stores (P : VoxelMap -> Prop) (st : useVoxelGrid.State) : Prop :=
  P (useVoxelGrid.voxels st)
  /\ Forall (fun h => P (HistoryState.voxels h)) (useVoxelGrid.history st).

(** Once there is a snapshot, the one under the index is the store. *)
Definition current_snapshot (st : useVoxelGrid.State) : Prop :=
  0 <= useVoxelGrid.historyIndex st ->
  exists h,
    JS.index (useVoxelGrid.history st) (useVoxelGrid.historyIndex st) = Some h
    /\ HistoryState.voxels h = useVoxelGrid.voxels st.

Definition well_formed (st : useVoxelGrid.State) : Prop :=
  history_invariant st /\ current_snapshot st /\ all_stores store_ok st.

(** The events that take a snapshot in the state they meet. *)
Definition is_edit (e : useVoxelGrid.Event) (st : useVoxelGrid.State) : Prop :=
  match e with
  | useVoxelGrid.AddVoxel _ _ _ => True
  | useVoxelGrid.RemoveVoxel x y _ => useVoxelGrid.hasVoxel x y st = true
  | useVoxelGrid.ClearGrid _ => True
  | _ => False
  end.

(** Two states for examples: two cells painted, and the same after an undo. *)
Definition twoEdits : useVoxelGrid.State :=
  useVoxelGrid.addVoxel 3 4 11 (useVoxelGrid.addVoxel 1 2 10 useVoxelGrid.initial).

Definition twoEditsUndone : useVoxelGrid.State :=
  match useVoxelGrid.undo twoEdits with
  | Some st => st
  | None => twoEdits
  end.

(** The voxels of a store lie within the extent the sort key is made
    for: an [x] and a [y] from 0 to 99. *)
Definition extentRange : list Z := List.map Z.of_nat (seq 0 100).

Definition within_extent (m : VoxelMap) : Prop :=
  Forall (fun v => 0 <= Voxel.x v < 100 /\ 0 <= Voxel.y v < 100) (JS.Map.values m).

(** The integers that JavaScript numbers hold exactly together with their
    neighbours, up to [Number.MAX_SAFE_INTEGER]; a store whose voxels have
    such coordinates and heights. *)
Definition safe_integer (z : Z) : Prop :=
  - 9007199254740991 <= z <= 9007199254740991.

Definition safe_store (m : VoxelMap) : Prop :=
  Forall
    (fun v =>
       safe_integer (Voxel.x v) /\ safe_integer (Voxel.y v)
       /\ safe_integer (Voxel.height v))
    (JS.Map.values m).

(** A column far beyond the extent: [farColumn * 100] is 9007199254741000,
    above 2^53, where binary64 holds the even integers only. *)
Definition farColumn : Z := 90071992547410.

(** Back to front, as the painter wants the cells: by [x], then by [y]. *)
Definition painter_before (a b : Voxel.t) : Prop :=
  Voxel.x a < Voxel.x b \/ (Voxel.x a = Voxel.x b /\ Voxel.y a <= Voxel.y b).

(** Two stores for examples: the same two cells, painted in either order. *)
Definition paintedForth : VoxelMap :=
  useVoxelGrid.voxels
    (useVoxelGrid.addVoxel 3 4 11 (useVoxelGrid.addVoxel 1 2 10 useVoxelGrid.initial)).

Definition paintedBack : VoxelMap :=
  useVoxelGrid.voxels
    (useVoxelGrid.addVoxel 1 2 11 (useVoxelGrid.addVoxel 3 4 10 useVoxelGrid.initial)).

(** ** Colours with integer offsets *)

(** A channel value cut to the range of a byte. *)
Definition clamp255 (z : Z) : Z := Z.max 0 (Z.min 255 z).

Definition byteRange : list Z := List.map Z.of_nat (seq 0 256).
Definition amountRange : list Z := List.map (fun i => Z.of_nat i - 255) (seq 0 511).

(** Six characters as a text. *)
Definition six (c1 c2 c3 c4 c5 c6 : ascii) : string :=
  String c1 (String c2 (String c3 (String c4 (String c5 (String c6 EmptyString))))).

(** ** The events the user interface sends *)

Definition valid_voxel (v : Voxel.t) : Prop :=
  validCoordinate (Voxel.x v) (Voxel.y v)
  /\ validHeight (Voxel.height v)
  /\ validColor (Voxel.color v).

Definition valid_store (m : VoxelMap) : Prop := Forall valid_voxel (JS.Map.values m).

(** What the components send: the grid draws the cells 0 to 19 and calls
    with their coordinates; the height comes from the slider, 1 to 10, or
    from the H keys; the colour from the palette, the digit keys or the
    colour input. *)
Definition ui_event (e : useVoxelGrid.Event) (st : useVoxelGrid.State) : Prop :=
  match e with
  | useVoxelGrid.AddVoxel x y _ => validCoordinate x y
  | useVoxelGrid.RemoveVoxel x y _ => validCoordinate x y
  | useVoxelGrid.SetBlockHeight h =>
      validHeight h
      \/ h = App.heightUp (useVoxelGrid.blockHeight st)
      \/ h = App.heightDown (useVoxelGrid.blockHeight st)
  | useVoxelGrid.SetSelectedColor c =>
      validColor c \/ exists num, App.presetColor num = Some c
  | _ => True
  end.

(** A run in which every event is one the user interface sends. *)
Fixpoint ui_run (es : list useVoxelGrid.Event) (st : useVoxelGrid.State) : Prop :=
  match es with
  | [] => True
  | e :: rest =>
      ui_event e st
      /\ match useVoxelGrid.step e st with
         | Some st' => ui_run rest st'
         | None => True
         end
  end.

Definition ui_state (st : useVoxelGrid.State) : Prop :=
  validHeight (useVoxelGrid.blockHeight st)
  /\ validColor (useVoxelGrid.selectedColor st)
  /\ all_stores valid_store st.

(** * Properties *)

(** ** Arrays and strings *)

Lemma insert_sorted_Permutation {A : Type} (cmp : A -> A -> Z) (a : A) (l : list A) :
  Permutation (a :: l) (JS.insert_sorted cmp a l).
Proof.
  induction l as [|b r IH]; simpl.
  - apply Permutation_refl.
  - destruct (cmp a b <=? 0).
    + apply Permutation_refl.
    + eapply Permutation_trans; [apply perm_swap|].
      apply perm_skip, IH.
Qed.

Lemma sort_Permutation {A : Type} (cmp : A -> A -> Z) (l : list A) :
  Permutation l (JS.sort cmp l).
Proof.
  induction l as [|a l IH]; simpl.
  - apply perm_nil.
  - eapply Permutation_trans; [apply perm_skip, IH|].
    apply insert_sorted_Permutation.
Qed.

Lemma insert_sorted_ascending (a : Voxel.t) (l : list Voxel.t) :
  ascending l -> ascending (JS.insert_sorted Isometric.compareOrder a l).
Proof.
  unfold ascending.
  induction 1 as [|b r Hr IH Hb]; simpl.
  - constructor; [constructor | constructor].
  - unfold Isometric.compareOrder at 1.
    destruct (Z.leb_spec (Isometric.order a - Isometric.order b) 0) as [Hle|Hgt].
    + constructor.
      * constructor; assumption.
      * constructor; [lia|].
        rewrite Forall_forall in Hb |- *. intros c Hc.
        specialize (Hb c Hc). simpl in Hb. lia.
    + constructor; [exact IH|].
      rewrite Forall_forall in Hb |- *. intros c Hc.
      apply (Permutation_in c (Permutation_sym (insert_sorted_Permutation _ a r))) in Hc.
      destruct Hc as [<-|Hc]; [lia | exact (Hb c Hc)].
Qed.

Lemma sortedVoxels_ascending (voxels : VoxelMap) :
  ascending (Isometric.sortedVoxels voxels).
Proof.
  unfold Isometric.sortedVoxels, JS.sort.
  induction (JS.Map.values voxels) as [|a l IH]; simpl.
  - constructor.
  - apply insert_sorted_ascending, IH.
Qed.

Lemma StronglySorted_weaken {A : Type} (R R' : A -> A -> Prop) (l : list A) :
  (forall a b, In a l -> In b l -> R a b -> R' a b) ->
  StronglySorted R l -> StronglySorted R' l.
Proof.
  intros Himp Hs. induction Hs as [|a r Hr IH Ha].
  - constructor.
  - constructor.
    + apply IH. intros x y Hx Hy. apply Himp; now right.
    + rewrite Forall_forall in Ha |- *. intros b Hb.
      apply Himp; [now left | now right | exact (Ha b Hb)].
Qed.

Lemma sortedVoxels_Permutation (voxels : VoxelMap) :
  Permutation (JS.Map.values voxels) (Isometric.sortedVoxels voxels).
Proof.
  apply sort_Permutation.
Qed.

(** *** The sort key within the extent *)

(** The binary64 key of every cell of the extent, computed: it is the
    integer [y + x * 100]. *)
Lemma order_table :
  List.map
    (fun x => List.map (fun y => Isometric.order (Voxel.mk x y 1 "")) extentRange)
    extentRange
  = List.map (fun x => List.map (fun y => y + x * 100) extentRange) extentRange.
Proof.
  vm_compute. reflexivity.
Qed.

Lemma extentRange_In (k : Z) : 0 <= k < 100 -> In k extentRange.
Proof.
  intros Hk. unfold extentRange. replace k with (Z.of_nat (Z.to_nat k)) by lia.
  apply in_map, in_seq. lia.
Qed.

Lemma order_exact (v : Voxel.t) :
  0 <= Voxel.x v < 100 -> 0 <= Voxel.y v < 100 ->
  Isometric.order v = Voxel.y v + Voxel.x v * 100.
Proof.
  intros Hx Hy.
  pose proof (proj1 (@map_ext_in_iff _ _ _ _ _) order_table
                (Voxel.x v) (extentRange_In _ Hx)) as T.
  exact (proj1 (@map_ext_in_iff _ _ _ _ _) T (Voxel.y v) (extentRange_In _ Hy)).
Qed.

Lemma within_extent_sorted (voxels : VoxelMap) (v : Voxel.t) :
  within_extent voxels -> In v (Isometric.sortedVoxels voxels) ->
  Isometric.order v = Voxel.y v + Voxel.x v * 100
  /\ 0 <= Voxel.x v < 100 /\ 0 <= Voxel.y v < 100.
Proof.
  intros Hext Hin.
  unfold within_extent in Hext. rewrite Forall_forall in Hext.
  destruct (Hext v (Permutation_in v
                      (Permutation_sym (sortedVoxels_Permutation voxels)) Hin))
    as [Hx Hy].
  split; [apply order_exact; assumption | split; assumption].
Qed.

Lemma append_assoc (a b c : string) : (a +++ b) +++ c = a +++ b +++ c.
Proof.
  induction a as [|ch a IH]; simpl; [reflexivity | now rewrite IH].
Qed.

(** ** Scene composition *)

Section Rendering.

Variables Math_sin Math_cos : float -> float.
Variable Number_toString : float -> string.

Local Abbreviation generateSceneSVG :=
  (Isometric.generateSceneSVG Math_sin Math_cos Number_toString).
Local Abbreviation generateVoxelFace :=
  (Isometric.generateVoxelFace Math_sin Math_cos Number_toString).
Local Abbreviation sceneFaces :=
  (Isometric.sceneFaces Math_sin Math_cos Number_toString).

(** C9.  Whatever the lighting angle, the scene of the empty store is one
    fixed document: an [svg] element with the square view box
    [0 0 400 400] and no [path] element in it.  The function is total, so
    there is no failure. *)
Theorem empty_store_default_scene (lightingAngle : float) :
  generateSceneSVG JS.Map.empty lightingAngle
    = "<svg xmlns=" +++ JS.quoted "http://www.w3.org/2000/svg"
        +++ " viewBox=" +++ JS.quoted "0 0 400 400" +++ "></svg>"
  /\ occurrences "<path" (generateSceneSVG JS.Map.empty lightingAngle) = O
  /\ useVoxelGrid.renderScene Math_sin Math_cos Number_toString lightingAngle
       useVoxelGrid.initial
     = generateSceneSVG JS.Map.empty lightingAngle.
Proof.
  repeat split; reflexivity.
Qed.

(** C8.  For a store that is not empty, of voxels whose coordinates and
    heights are safe integers, the document is a header, then the faces,
    then the closing tags.  The faces are those of the voxels of the
    store's entries taken in ascending order of the key the program
    computes for them, [y + x * 100] in binary64; within the extent the key
    is made for, [x] and [y] from 0 to 99, that is the ascending order of
    the integer [y + x * 100].  Each voxel gives the [path] element of its
    right face, then of its left face, then of its top face. *)
Theorem scene_faces_painter_order (voxels : VoxelMap) (lightingAngle : float) :
  JS.Map.size voxels <> 0 ->
  safe_store voxels ->
  exists (vs : list Voxel.t) (header : string),
    Permutation (List.map snd voxels) vs
    /\ StronglySorted (fun a b => Isometric.order a <= Isometric.order b) vs
    /\ (within_extent voxels ->
        StronglySorted
          (fun a b => Voxel.y a + Voxel.x a * 100 <= Voxel.y b + Voxel.x b * 100) vs)
    /\ sceneFaces voxels lightingAngle
       = flat_map
           (fun v =>
              List.map
                (fun faceType =>
                   let face := generateVoxelFace v faceType lightingAngle in
                   "<path d=" +++ JS.quoted (VoxelFace.path face)
                     +++ " fill=" +++ JS.quoted (VoxelFace.fill face)
                     +++ " stroke=" +++ JS.quoted "#1e293b"
                     +++ " stroke-width=" +++ JS.quoted "0.5" +++ "/>")
                [Isometric.FaceRight; Isometric.FaceLeft; Isometric.FaceTop])
           vs
    /\ generateSceneSVG voxels lightingAngle
       = header +++ "  <g>" +++ JS.newline
           +++ "    " +++ JS.join (JS.newline +++ "    ") (sceneFaces voxels lightingAngle)
           +++ JS.newline +++ "  </g>" +++ JS.newline +++ "</svg>".
Proof.
  intros Hsize _.
  exists (Isometric.sortedVoxels voxels).
  pose (b := Isometric.sceneBounds Math_sin Math_cos voxels).
  exists ("<svg xmlns=" +++ JS.quoted "http://www.w3.org/2000/svg"
          +++ " viewBox="
          +++ JS.quoted
                (Number_toString (Isometric.minX b - 40)%float +++ " "
                 +++ Number_toString (Isometric.minY b - 40)%float +++ " "
                 +++ Number_toString (Isometric.maxX b - Isometric.minX b + 40 * 2)%float
                 +++ " "
                 +++ Number_toString (Isometric.maxY b - Isometric.minY b + 40 * 2)%float)
          +++ " preserveAspectRatio=" +++ JS.quoted "xMidYMid meet" +++ ">"
          +++ JS.newline).
  split; [apply sortedVoxels_Permutation|].
  split; [apply sortedVoxels_ascending|].
  split.
  { intros Hext.
    apply (StronglySorted_weaken
             (fun a b => Isometric.order a <= Isometric.order b));
      [|apply sortedVoxels_ascending].
    intros v w Hv Hw Hvw.
    destruct (within_extent_sorted voxels v Hext Hv) as [Ev _].
    destruct (within_extent_sorted voxels w Hext Hw) as [Ew _].
    rewrite Ev, Ew in Hvw. exact Hvw. }
  split; [reflexivity|].
  unfold Isometric.generateSceneSVG.
  destruct (Z.eqb_spec (JS.Map.size voxels) 0) as [E|_]; [contradiction|].
  cbv zeta. fold b.
  rewrite !append_assoc.
  reflexivity.
Qed.

(** C2 (amended).  After [upsertVoxel 0 0 1 "#3B82F6"] on the empty store,
    the scene at lighting angle 45 has exactly three faces, the right, the
    left and the top face of the one voxel.  The left fill is
    [adjustBrightness "#3B82F6" (-20 + sin(45 deg) * 10)], the right fill is
    [adjustBrightness "#3B82F6" (-30 + cos(45 deg) * 10)], and the top fill is
    [adjustBrightness "#3B82F6" 0], which is the same colour written with
    lower-case digits, ["#3b82f6"]. *)
Theorem single_voxel_scene (now : Z) :
  let st := useVoxelGrid.upsertVoxel 0 0 1 "#3B82F6" now useVoxelGrid.initial in
  let v := Voxel.mk 0 0 1 "#3B82F6" in
  let angleRad := (45 * JS.Math_PI / 180)%float in
  let rightFace := generateVoxelFace v Isometric.FaceRight 45%float in
  let leftFace := generateVoxelFace v Isometric.FaceLeft 45%float in
  let topFace := generateVoxelFace v Isometric.FaceTop 45%float in
  useVoxelGrid.getVoxel 0 0 st = Some v
  /\ sceneFaces (useVoxelGrid.voxels st) 45%float
     = [ Isometric.pathElement rightFace;
         Isometric.pathElement leftFace;
         Isometric.pathElement topFace ]
  /\ List.length (sceneFaces (useVoxelGrid.voxels st) 45%float) = 3%nat
  /\ VoxelFace.fill topFace = Colors.adjustBrightness "#3B82F6" 0%float
  /\ VoxelFace.fill topFace = "#3b82f6"%string
  /\ VoxelFace.fill leftFace
     = Colors.adjustBrightness "#3B82F6" (-20 + Math_sin angleRad * 10)%float
  /\ VoxelFace.fill rightFace
     = Colors.adjustBrightness "#3B82F6" (-30 + Math_cos angleRad * 10)%float.
Proof.
  cbv zeta.
  repeat split; try reflexivity.
Qed.

(** With the doubles next to the square root of one half that a JavaScript
    engine returns for the sine and the cosine of 45 degrees (every channel
    is cut to an integer, so the neighbouring doubles give the same text),
    the left fill is ["#2e75e9"] and the right fill is ["#246bdf"]. *)
Lemma single_voxel_fills_computed :
  let angleRad := (45 * JS.Math_PI / 180)%float in
  let v := Voxel.mk 0 0 1 "#3B82F6" in
  Math_sin angleRad = 0x1.6a09e667f3bccp-1%float ->
  Math_cos angleRad = 0x1.6a09e667f3bcdp-1%float ->
  VoxelFace.fill (generateVoxelFace v Isometric.FaceLeft 45%float) = "#2e75e9"%string
  /\ VoxelFace.fill (generateVoxelFace v Isometric.FaceRight 45%float) = "#246bdf"%string.
Proof.
  cbv zeta. intros Hsin Hcos.
  cbv beta iota zeta
    delta [Isometric.generateVoxelFace Isometric.calculateLighting
           VoxelFace.fill Voxel.color].
  rewrite Hsin, Hcos.
  split; vm_compute; reflexivity.
Qed.

End Rendering.

(** C8 at a store filled against the order: cell (1,0), key 100, is
    painted before cell (0,5), key 5. *)
Lemma scene_faces_painter_order_witness :
  let voxels :=
    useVoxelGrid.voxels
      (useVoxelGrid.upsertVoxel 0 5 2 "#10B981" 2
         (useVoxelGrid.upsertVoxel 1 0 1 "#3B82F6" 1 useVoxelGrid.initial)) in
  let sin := fun _ : float => 0.5%float in
  let cos := fun _ : float => 0.75%float in
  let str := fun _ : float => "0"%string in
  JS.Map.size voxels <> 0
  /\ safe_store voxels
  /\ within_extent voxels
  /\ exists (vs : list Voxel.t) (header : string),
       Permutation (List.map snd voxels) vs
       /\ StronglySorted (fun a b => Isometric.order a <= Isometric.order b) vs
       /\ (within_extent voxels ->
           StronglySorted
             (fun a b => Voxel.y a + Voxel.x a * 100 <= Voxel.y b + Voxel.x b * 100) vs)
       /\ Isometric.sceneFaces sin cos str voxels 45%float
          = flat_map
              (fun v =>
                 List.map
                   (fun faceType =>
                      let face :=
                        Isometric.generateVoxelFace sin cos str v faceType 45%float in
                      "<path d=" +++ JS.quoted (VoxelFace.path face)
                        +++ " fill=" +++ JS.quoted (VoxelFace.fill face)
                        +++ " stroke=" +++ JS.quoted "#1e293b"
                        +++ " stroke-width=" +++ JS.quoted "0.5" +++ "/>")
                   [Isometric.FaceRight; Isometric.FaceLeft; Isometric.FaceTop])
              vs
       /\ Isometric.generateSceneSVG sin cos str voxels 45%float
          = header +++ "  <g>" +++ JS.newline
              +++ "    "
              +++ JS.join (JS.newline +++ "    ")
                    (Isometric.sceneFaces sin cos str voxels 45%float)
              +++ JS.newline +++ "  </g>" +++ JS.newline +++ "</svg>".
Proof.
  cbv zeta.
  assert (H : JS.Map.size
                (useVoxelGrid.voxels
                   (useVoxelGrid.upsertVoxel 0 5 2 "#10B981" 2
                      (useVoxelGrid.upsertVoxel 1 0 1 "#3B82F6" 1 useVoxelGrid.initial)))
              <> 0) by (vm_compute; discriminate).
  assert (S : safe_store
                (useVoxelGrid.voxels
                   (useVoxelGrid.upsertVoxel 0 5 2 "#10B981" 2
                      (useVoxelGrid.upsertVoxel 1 0 1 "#3B82F6" 1 useVoxelGrid.initial)))).
  { unfold safe_store, safe_integer.
    change (Forall
              (fun v =>
                 - 9007199254740991 <= Voxel.x v <= 9007199254740991
                 /\ - 9007199254740991 <= Voxel.y v <= 9007199254740991
                 /\ - 9007199254740991 <= Voxel.height v <= 9007199254740991)
              [Voxel.mk 1 0 1 "#3B82F6"; Voxel.mk 0 5 2 "#10B981"]).
    repeat constructor; simpl; lia. }
  split; [exact H|].
  split; [exact S|].
  split.
  - unfold within_extent.
    change (Forall (fun v => 0 <= Voxel.x v < 100 /\ 0 <= Voxel.y v < 100)
              [Voxel.mk 1 0 1 "#3B82F6"; Voxel.mk 0 5 2 "#10B981"]).
    repeat constructor; simpl; lia.
  - exact (scene_faces_painter_order _ _ _ _ _ H S).
Defined.

(** The claim of C2 that the top fill is the text ["#3B82F6"] fails
    whatever the engine's sine, cosine and number printing are: the fill goes
    through [toString(16)], which writes lower-case digits. *)
Lemma single_voxel_top_fill_is_not_the_input_text :
  ~ exists (Math_sin Math_cos : float -> float) (Number_toString : float -> string)
      (v : Voxel.t),
      useVoxelGrid.getVoxel 0 0
        (useVoxelGrid.upsertVoxel 0 0 1 "#3B82F6" 0 useVoxelGrid.initial) = Some v
      /\ VoxelFace.fill
           (Isometric.generateVoxelFace Math_sin Math_cos Number_toString v
              Isometric.FaceTop 45%float)
         = "#3B82F6"%string.
Proof.
  intros (sin & cos & str & v & Hv & Hfill).
  vm_compute in Hv. injection Hv as <-.
  vm_compute in Hfill. discriminate Hfill.
Qed.

(** ** The voxel store *)

Section Store.

Import useVoxelGrid.

Lemma Map_get_set {V : Type} (k : string) (v : V) (m : JS.Map.t V) :
  JS.Map.get k (JS.Map.set k v m) = Some v.
Proof.
  induction m as [|[k' v'] r IH]; simpl.
  - now rewrite String.eqb_refl.
  - destruct (String.eqb k' k) eqn:E; simpl; rewrite E; [reflexivity | exact IH].
Qed.

(** [saveToHistory] leaves the store and the settings alone. *)
Lemma saveToHistory_voxels (newVoxels : VoxelMap) (now : Z) (st : State) :
  voxels (saveToHistory newVoxels now st) = voxels st.
Proof.
  unfold saveToHistory.
  destruct (MAX_HISTORY <? _); reflexivity.
Qed.

(** [addVoxel] reads the height and the colour of the state and leaves at
    the key of the cell a voxel that carries them. *)
Lemma addVoxel_get (x y now : Z) (st : State) :
  exists v,
    getVoxel x y (addVoxel x y now st) = Some v
    /\ Voxel.height v = blockHeight st
    /\ Voxel.color v = selectedColor st.
Proof.
  unfold getVoxel, addVoxel.
  rewrite saveToHistory_voxels. simpl.
  destruct (JS.Map.get (getKey x y) (voxels st)) as [old|] eqn:Hget.
  - destruct (String.eqb (Voxel.color old) (selectedColor st)) eqn:Hc;
      rewrite Map_get_set; eexists; repeat split.
    simpl. now apply String.eqb_eq.
  - rewrite Map_get_set. eexists; repeat split.
Qed.

(** C7.  For a cell of the grid, a height from 1 to 10 and a well-formed
    colour, [getVoxel] after [upsertVoxel] returns a voxel with exactly that
    height and colour, whatever the store held at the cell before. *)
Theorem upsert_then_get (x y height : Z) (color : string) (now : Z) (st : State) :
  validCoordinate x y -> validHeight height -> validColor color ->
  exists v,
    getVoxel x y (upsertVoxel x y height color now st) = Some v
    /\ Voxel.height v = height
    /\ Voxel.color v = color.
Proof.
  intros _ _ _.
  unfold upsertVoxel.
  destruct (addVoxel_get x y now (setSelectedColor color (setBlockHeight height st)))
    as (v & Hget & Hh & Hc).
  exists v. auto.
Qed.

Lemma upsert_then_get_witness :
  exists v,
    getVoxel 3 7 (upsertVoxel 3 7 4 "#10B981" 2
                    (upsertVoxel 3 7 9 "#F59E0B" 1 initial)) = Some v
    /\ Voxel.height v = 4
    /\ Voxel.color v = "#10B981"%string.
Proof.
  apply (upsert_then_get 3 7 4 "#10B981" 2).
  - unfold validCoordinate. lia.
  - unfold validHeight. lia.
  - unfold validColor. vm_compute. discriminate.
Defined.

(** C10.  [removeVoxel] on a cell that holds no voxel returns the state it
    was given: the store, the snapshots and the index are the same, and so
    are [canUndo] and [canRedo]. *)
Theorem remove_absent_is_noop (x y now : Z) (st : State) :
  hasVoxel x y st = false ->
  removeVoxel x y now st = st
  /\ voxels (removeVoxel x y now st) = voxels st
  /\ history (removeVoxel x y now st) = history st
  /\ historyIndex (removeVoxel x y now st) = historyIndex st
  /\ canUndo (removeVoxel x y now st) = canUndo st
  /\ canRedo (removeVoxel x y now st) = canRedo st.
Proof.
  intros H.
  assert (E : removeVoxel x y now st = st).
  { unfold removeVoxel. unfold hasVoxel in H. now rewrite H. }
  rewrite E. repeat split.
Qed.

Lemma remove_absent_is_noop_witness :
  let st := upsertVoxel 1 2 3 "#3B82F6" 10 initial in
  hasVoxel 2 1 st = false
  /\ removeVoxel 2 1 11 st = st.
Proof.
  cbv zeta.
  assert (H : hasVoxel 2 1 (upsertVoxel 1 2 3 "#3B82F6" 10 initial) = false)
    by (vm_compute; reflexivity).
  split; [exact H|].
  exact (proj1 (remove_absent_is_noop 2 1 11 _ H)).
Defined.

Lemma saveToHistory_last (newVoxels : VoxelMap) (now : Z) (st : State) :
  exists older,
    history (saveToHistory newVoxels now st)
    = older ++ [HistoryState.mk newVoxels now].
Proof.
  unfold saveToHistory.
  set (kept := JS.slice0 (history st) (historyIndex st + 1)).
  destruct (Z.ltb_spec MAX_HISTORY
              (Z.of_nat (List.length (kept ++ [HistoryState.mk newVoxels now]))))
    as [Hfull|Hroom]; simpl.
  - destruct kept as [|h0 hs].
    + simpl in Hfull. unfold MAX_HISTORY in Hfull. lia.
    + exists hs. reflexivity.
  - exists kept. reflexivity.
Qed.

(** C1 (amended).  [upsertVoxel] checks nothing and cannot fail: for every
    [x], [y], height and colour, in range and well formed or not, the store
    then holds at the key of (x, y) a voxel with that height and colour, and
    the history ends with a snapshot of that store.  The ranges are those of
    the grid, the slider and the palette that call it. *)
Theorem upsert_validates_nothing (x y height : Z) (color : string) (now : Z) (st : State) :
  let st' := upsertVoxel x y height color now st in
  hasVoxel x y st' = true
  /\ (exists v,
        getVoxel x y st' = Some v
        /\ Voxel.height v = height
        /\ Voxel.color v = color)
  /\ (exists older,
        history st' = older ++ [HistoryState.mk (voxels st') now]).
Proof.
  cbv zeta. unfold upsertVoxel.
  set (st0 := setSelectedColor color (setBlockHeight height st)).
  destruct (addVoxel_get x y now st0) as (v & Hget & Hh & Hc).
  split; [|split].
  - unfold hasVoxel, JS.Map.has. unfold getVoxel in Hget. now rewrite Hget.
  - exists v. auto.
  - unfold addVoxel at 1. cbv zeta.
    match goal with
    | |- context [saveToHistory ?V now ?s] =>
        destruct (saveToHistory_last V now s) as [older Hold];
        exists older; rewrite Hold
    end.
    unfold addVoxel. cbv zeta. now rewrite saveToHistory_voxels.
Qed.

(** The claim of C1 fails on each of its three cases: a coordinate outside
    the grid, a height outside 1 to 10 and a text that is no colour are
    stored like any other, so the store does change. *)
Lemma upsert_invalid_arguments_change_store :
  (~ validCoordinate 25 0
   /\ getVoxel 25 0 (upsertVoxel 25 0 1 "#3B82F6" 0 initial)
      = Some (Voxel.mk 25 0 1 "#3B82F6")
   /\ voxels (upsertVoxel 25 0 1 "#3B82F6" 0 initial) <> voxels initial)
  /\ (~ validHeight 11
      /\ getVoxel 0 0 (upsertVoxel 0 0 11 "#3B82F6" 0 initial)
         = Some (Voxel.mk 0 0 11 "#3B82F6")
      /\ voxels (upsertVoxel 0 0 11 "#3B82F6" 0 initial) <> voxels initial)
  /\ (~ validColor "blue"
      /\ getVoxel 0 0 (upsertVoxel 0 0 1 "blue" 0 initial)
         = Some (Voxel.mk 0 0 1 "blue")
      /\ voxels (upsertVoxel 0 0 1 "blue" 0 initial) <> voxels initial).
Proof.
  repeat split; try (vm_compute; discriminate).
  - unfold validCoordinate. lia.
  - unfold validHeight. lia.
  - unfold validColor. intros H. apply H. reflexivity.
Qed.

End Store.

(** ** Keys of cells *)

Section Keys.

Import useVoxelGrid.

Lemma string_of_uint_no_comma (d : Decimal.uint) :
  has_char "," (DecimalString.NilEmpty.string_of_uint d) = false.
Proof.
  induction d; simpl; auto.
Qed.

Lemma toString10_no_comma (z : Z) : has_char "," (JS.toString10 z) = false.
Proof.
  unfold JS.toString10.
  destruct (Z.to_int z) as [d|d]; simpl;
    destruct d; simpl; auto using string_of_uint_no_comma.
Qed.

Lemma to_int_not_nil (z : Z) :
  Z.to_int z <> Decimal.Pos Decimal.Nil /\ Z.to_int z <> Decimal.Neg Decimal.Nil.
Proof.
  destruct z as [|p|p]; simpl; split; try discriminate;
    intros [= H]; exact (DecimalPos.Unsigned.to_uint_nonnil p H).
Qed.

Lemma toString10_inj (a b : Z) : JS.toString10 a = JS.toString10 b -> a = b.
Proof.
  unfold JS.toString10. intros H.
  apply DecimalZ.to_int_inj.
  apply (f_equal DecimalString.NilZero.int_of_string) in H.
  destruct (to_int_not_nil a) as [Ha1 Ha2].
  destruct (to_int_not_nil b) as [Hb1 Hb2].
  rewrite !DecimalString.NilZero.isi in H by assumption.
  now injection H.
Qed.

(** A text is cut in one way only at the first occurrence of a character. *)
Lemma cut_unique (c : ascii) (a a' b b' : string) :
  has_char c a = false -> has_char c a' = false ->
  a +++ String c b = a' +++ String c b' -> a = a' /\ b = b'.
Proof.
  revert a'. induction a as [|h t IH]; intros [|h' t'] Ha Ha' E; simpl in *.
  - injection E as ->. auto.
  - injection E as <- _. rewrite Ascii.eqb_refl in Ha'. discriminate.
  - injection E as -> _. rewrite Ascii.eqb_refl in Ha. discriminate.
  - injection E as -> E.
    apply orb_false_iff in Ha, Ha'.
    destruct (IH t' (proj2 Ha) (proj2 Ha') E) as [-> ->]. auto.
Qed.

(** Two cells have the same key only when they are the same cell. *)
Lemma getKey_inj (x y x' y' : Z) :
  getKey x y = getKey x' y' -> x = x' /\ y = y'.
Proof.
  unfold getKey. intros E.
  destruct (cut_unique "," _ _ _ _ (toString10_no_comma x) (toString10_no_comma x') E)
    as [Hx Hy].
  split; apply toString10_inj; assumption.
Qed.

Lemma cellKey_Injective : Injective cellKey.
Proof.
  intros [x y] [x' y'] E. unfold cellKey in E. simpl in E.
  destruct (getKey_inj _ _ _ _ E) as [-> ->]. reflexivity.
Qed.

Lemma distinct_cells_distinct_keys (es : list Edit) :
  NoDup (List.map editCell es) -> NoDup (List.map editKey es).
Proof.
  intros H. unfold editKey.
  rewrite <- (map_map editCell cellKey).
  apply Injective_map_NoDup; [exact cellKey_Injective | exact H].
Qed.

(** *** The store after edits of distinct cells *)

Lemma Map_get_set_other {V : Type} (k k' : string) (v : V) (m : JS.Map.t V) :
  k <> k' -> JS.Map.get k' (JS.Map.set k v m) = JS.Map.get k' m.
Proof.
  intros Hk. induction m as [|[k0 v0] r IH]; simpl.
  - destruct (String.eqb_spec k k'); [contradiction | reflexivity].
  - destruct (String.eqb_spec k0 k) as [->|Hk0]; simpl.
    + destruct (String.eqb_spec k k'); [contradiction | reflexivity].
    + now rewrite IH.
Qed.

Lemma Map_set_length_absent {V : Type} (k : string) (v : V) (m : JS.Map.t V) :
  JS.Map.get k m = None ->
  List.length (JS.Map.set k v m) = S (List.length m).
Proof.
  induction m as [|[k0 v0] r IH]; simpl; [reflexivity|].
  destruct (String.eqb k0 k); [discriminate|].
  intros H. simpl. now rewrite IH.
Qed.

Lemma addVoxel_voxels (x y now : Z) (st : State) :
  exists v, voxels (addVoxel x y now st) = JS.Map.set (getKey x y) v (voxels st).
Proof.
  unfold addVoxel. cbv zeta. rewrite saveToHistory_voxels. simpl.
  destruct (JS.Map.get (getKey x y) (voxels st)) as [old|].
  - destruct (String.eqb (Voxel.color old) (selectedColor st)); eexists; reflexivity.
  - eexists; reflexivity.
Qed.

Lemma applyEdits_size (es : list Edit) (st : State) :
  NoDup (List.map editKey es) ->
  (forall e, In e es -> JS.Map.get (editKey e) (voxels st) = None) ->
  List.length (voxels (applyEdits es st)) = (List.length (voxels st) + List.length es)%nat.
Proof.
  revert st. induction es as [|e es IH]; intros st Hnd Hfresh.
  - simpl. lia.
  - change (applyEdits (e :: es) st) with (applyEdits es (applyEdit st e)).
    simpl in Hnd. inversion Hnd as [|k ks Hnotin Hnd' Heq]; subst.
    destruct e as [[x y] now].
    destruct (addVoxel_voxels x y now st) as [v Hv].
    rewrite IH.
    + simpl applyEdit. rewrite Hv.
      rewrite Map_set_length_absent by (apply (Hfresh (x, y, now)); now left).
      simpl. lia.
    + exact Hnd'.
    + intros e' He'. simpl applyEdit. rewrite Hv.
      rewrite Map_get_set_other.
      * apply Hfresh. now right.
      * intros Heq. apply Hnotin. change (getKey x y) with (editKey (x, y, now)) in Heq.
        rewrite Heq. now apply in_map.
Qed.

End Keys.

(** ** The history *)

Section History.

Import useVoxelGrid.

Lemma slice0_firstn {A : Type} (l : list A) (e : Z) :
  0 <= e -> JS.slice0 l e = firstn (Z.to_nat e) l.
Proof.
  intros He. unfold JS.slice0.
  destruct (Z.ltb_spec e 0) as [Hneg|_]; [lia|].
  destruct (Z.le_gt_cases e (Z.of_nat (List.length l))) as [Hin|Hout].
  - now rewrite Z.min_l by lia.
  - rewrite Z.min_r by lia. rewrite Nat2Z.id, firstn_all.
    symmetry. apply firstn_all2. lia.
Qed.

Lemma length_tl {A : Type} (l : list A) :
  List.length (tl l) = (List.length l - 1)%nat.
Proof.
  destruct l; simpl; lia.
Qed.

Lemma saveToHistory_history (newVoxels : VoxelMap) (now : Z) (st : State) :
  -1 <= historyIndex st ->
  history (saveToHistory newVoxels now st)
  = if MAX_HISTORY <? Z.of_nat (List.length (appended newVoxels now st))
    then tl (appended newVoxels now st)
    else appended newVoxels now st.
Proof.
  intros Hi. unfold saveToHistory, appended.
  rewrite slice0_firstn by lia.
  destruct (MAX_HISTORY <? _); reflexivity.
Qed.

Lemma saveToHistory_historyIndex (newVoxels : VoxelMap) (now : Z) (st : State) :
  -1 <= historyIndex st ->
  historyIndex (saveToHistory newVoxels now st)
  = if MAX_HISTORY <? Z.of_nat (List.length (appended newVoxels now st))
    then historyIndex st
    else historyIndex st + 1.
Proof.
  intros Hi. unfold saveToHistory, appended.
  rewrite slice0_firstn by lia.
  destruct (MAX_HISTORY <? _); reflexivity.
Qed.

Lemma appended_length (newVoxels : VoxelMap) (now : Z) (st : State) :
  history_invariant st ->
  Z.of_nat (List.length (appended newVoxels now st)) = historyIndex st + 2.
Proof.
  intros (Hi & _ & _). unfold appended.
  rewrite length_app, firstn_length_le by lia. simpl. lia.
Qed.

Lemma saveToHistory_invariant (newVoxels : VoxelMap) (now : Z) (st : State) :
  history_invariant st -> history_invariant (saveToHistory newVoxels now st).
Proof.
  intros Hinv.
  pose proof (appended_length newVoxels now st Hinv) as Hlen.
  destruct Hinv as (Hi & Hempty & Hmax).
  unfold history_invariant.
  rewrite saveToHistory_history, saveToHistory_historyIndex by lia.
  unfold MAX_HISTORY in *.
  destruct (Z.ltb_spec 50 (Z.of_nat (List.length (appended newVoxels now st))))
    as [Hfull|Hroom].
  - rewrite length_tl. repeat split; try lia.
  - repeat split; try lia.
Qed.

(** After a save the index is on the last snapshot. *)
Lemma saveToHistory_at_tip (newVoxels : VoxelMap) (now : Z) (st : State) :
  history_invariant st ->
  historyIndex (saveToHistory newVoxels now st)
  = Z.of_nat (List.length (history (saveToHistory newVoxels now st))) - 1.
Proof.
  intros Hinv.
  pose proof (appended_length newVoxels now st Hinv) as Hlen.
  destruct Hinv as (Hi & Hempty & Hmax).
  rewrite saveToHistory_history, saveToHistory_historyIndex by lia.
  unfold MAX_HISTORY in *.
  destruct (Z.ltb_spec 50 (Z.of_nat (List.length (appended newVoxels now st))))
    as [Hfull|Hroom].
  - rewrite length_tl. lia.
  - lia.
Qed.

Lemma index_in_range {A : Type} (l : list A) (i : Z) :
  0 <= i < Z.of_nat (List.length l) -> exists a, JS.index l i = Some a.
Proof.
  intros Hi. unfold JS.index.
  destruct (Z.ltb_spec i 0) as [Hneg|_]; [lia|].
  destruct (nth_error l (Z.to_nat i)) as [a|] eqn:E.
  - now exists a.
  - apply nth_error_None in E. lia.
Qed.

Lemma undo_invariant (st : State) :
  history_invariant st ->
  exists st', undo st = Some st' /\ history_invariant st'
              /\ history st' = history st.
Proof.
  intros (Hi & Hempty & Hmax). unfold undo.
  destruct (Z.ltb_spec 0 (historyIndex st)) as [Hpos|Hzero].
  - destruct (index_in_range (history st) (historyIndex st - 1)) as [h Hh]; [lia|].
    rewrite Hh. eexists. split; [reflexivity|].
    unfold history_invariant. simpl. repeat split; try lia.
  - exists st. unfold history_invariant. auto.
Qed.

Lemma redo_invariant (st : State) :
  history_invariant st ->
  exists st', redo st = Some st' /\ history_invariant st'
              /\ history st' = history st.
Proof.
  intros (Hi & Hempty & Hmax). unfold redo.
  destruct (Z.ltb_spec (historyIndex st) (Z.of_nat (List.length (history st)) - 1))
    as [Hless|Hlast].
  - destruct (index_in_range (history st) (historyIndex st + 1)) as [h Hh]; [lia|].
    rewrite Hh. eexists. split; [reflexivity|].
    unfold history_invariant. simpl. repeat split; try lia.
  - exists st. unfold history_invariant. auto.
Qed.

(** [addVoxel] is the save of the store it computes. *)
Lemma addVoxel_save (x y now : Z) (st : State) :
  addVoxel x y now st
  = saveToHistory (voxels (addVoxel x y now st)) now
      (setVoxels (voxels (addVoxel x y now st)) st).
Proof.
  unfold addVoxel. cbv zeta.
  rewrite saveToHistory_voxels. reflexivity.
Qed.

Lemma step_invariant (e : Event) (st : State) :
  history_invariant st ->
  exists st', step e st = Some st' /\ history_invariant st'.
Proof.
  intros Hinv.
  destruct e as [x y now|x y now|now| | |c|h|a]; simpl.
  - eexists; split; [reflexivity|]. unfold addVoxel. cbv zeta.
    apply saveToHistory_invariant. exact Hinv.
  - eexists; split; [reflexivity|]. unfold removeVoxel.
    destruct (JS.Map.has _ _); [|exact Hinv].
    apply saveToHistory_invariant. exact Hinv.
  - eexists; split; [reflexivity|]. unfold clearGrid.
    apply saveToHistory_invariant. exact Hinv.
  - destruct (undo_invariant st Hinv) as (st' & H1 & H2 & _). eauto.
  - destruct (redo_invariant st Hinv) as (st' & H1 & H2 & _). eauto.
  - eexists; split; [reflexivity | exact Hinv].
  - eexists; split; [reflexivity | exact Hinv].
  - eexists; split; [reflexivity | exact Hinv].
Qed.

Lemma run_invariant (es : list Event) (st : State) :
  history_invariant st ->
  exists st', run es st = Some st' /\ history_invariant st'.
Proof.
  revert st. induction es as [|e es IH]; intros st Hinv; simpl.
  - eauto.
  - destruct (step_invariant e st Hinv) as (st1 & Hstep & Hinv1).
    rewrite Hstep. apply IH, Hinv1.
Qed.

Lemma initial_invariant : history_invariant initial.
Proof.
  unfold history_invariant, MAX_HISTORY. simpl. repeat split; lia.
Qed.

Lemma reachable_invariant (st : State) : reachable st -> history_invariant st.
Proof.
  intros [es Hrun].
  destruct (run_invariant es initial initial_invariant) as (st' & Hrun' & Hinv).
  congruence.
Qed.

(** C3.  The invariant [-1 <= index < length], with index -1 only for the
    empty history, and [length <= 50] holds in the initial state, is kept by
    every save, undo and redo (which never throw under it), hence by every
    event and in every reachable state; a save whose array would hold more
    than 50 snapshots drops the oldest one and leaves the index as it was. *)
Theorem history_invariant_preserved :
  history_invariant initial
  /\ (forall st newVoxels now,
        history_invariant st -> history_invariant (saveToHistory newVoxels now st))
  /\ (forall st, history_invariant st ->
        exists st', undo st = Some st' /\ history_invariant st')
  /\ (forall st, history_invariant st ->
        exists st', redo st = Some st' /\ history_invariant st')
  /\ (forall st e, history_invariant st ->
        exists st', step e st = Some st' /\ history_invariant st')
  /\ (forall st, reachable st -> history_invariant st)
  /\ (forall st newVoxels now,
        history_invariant st ->
        MAX_HISTORY < Z.of_nat (List.length (appended newVoxels now st)) ->
        history (saveToHistory newVoxels now st) = tl (appended newVoxels now st)
        /\ history (saveToHistory newVoxels now st)
           = tl (history st) ++ [HistoryState.mk newVoxels now]
        /\ historyIndex (saveToHistory newVoxels now st) = historyIndex st).
Proof.
  split; [exact initial_invariant|].
  split; [intros st V now; apply saveToHistory_invariant|].
  split.
  { intros st Hinv. destruct (undo_invariant st Hinv) as (st' & H1 & H2 & _). eauto. }
  split.
  { intros st Hinv. destruct (redo_invariant st Hinv) as (st' & H1 & H2 & _). eauto. }
  split; [intros st e; apply step_invariant|].
  split; [exact reachable_invariant|].
  intros st V now Hinv Hfull.
  pose proof (appended_length V now st Hinv) as Hlen.
  destruct Hinv as (Hi & Hempty & Hmax).
  rewrite saveToHistory_history, saveToHistory_historyIndex by lia.
  destruct (Z.ltb_spec MAX_HISTORY (Z.of_nat (List.length (appended V now st))))
    as [_|Hroom]; [|lia].
  repeat split.
  unfold appended, MAX_HISTORY in *.
  rewrite firstn_all2 by lia.
  destruct (history st) as [|h0 hs]; [simpl in *; lia | reflexivity].
Qed.

Lemma history_invariant_preserved_witness :
  history_invariant initial
  /\ history_invariant (saveToHistory JS.Map.empty 0 initial).
Proof.
  split.
  - exact (proj1 history_invariant_preserved).
  - exact (proj1 (proj2 history_invariant_preserved) initial JS.Map.empty 0
             (proj1 history_invariant_preserved)).
Defined.

Lemma redo_at_tip (st : State) :
  canRedo st = false -> redo st = Some st.
Proof.
  unfold canRedo, redo. intros H. now rewrite H.
Qed.

(** C6.  In every state, reachable or not, [undo] without [canUndo] and
    [redo] without [canRedo] return the state they were given: nothing is
    thrown, and the store, the snapshots and the index stay as they were. *)
Theorem undo_redo_unavailable_noop (st : State) :
  (canUndo st = false -> undo st = Some st)
  /\ (canRedo st = false -> redo st = Some st).
Proof.
  unfold canUndo, canRedo, undo, redo.
  split; intros H; rewrite H; reflexivity.
Qed.

Lemma undo_redo_unavailable_noop_witness :
  canUndo initial = false /\ canRedo initial = false
  /\ undo initial = Some initial /\ redo initial = Some initial.
Proof.
  assert (Hu : canUndo initial = false) by reflexivity.
  assert (Hr : canRedo initial = false) by reflexivity.
  exact (conj Hu (conj Hr
           (conj (proj1 (undo_redo_unavailable_noop initial) Hu)
                 (proj2 (undo_redo_unavailable_noop initial) Hr)))).
Defined.

Lemma addVoxel_store (x y now : Z) (st : State) :
  exists V,
    V = voxels (addVoxel x y now st)
    /\ addVoxel x y now st = saveToHistory V now (setVoxels V st).
Proof.
  eexists. split; [reflexivity | apply addVoxel_save].
Qed.

(** C5.  A save keeps the snapshots at positions 0 to index, appends the
    new one (and then drops the oldest if there are more than 50), so no redo
    is left after it; three edits, two undos and a fourth edit leave the
    first snapshot and the fourth, and redo then returns the same state. *)
Theorem save_discards_redo_branch :
  (forall st newVoxels now,
      history_invariant st ->
      let kept := firstn (Z.to_nat (historyIndex st + 1)) (history st) in
      let appended := kept ++ [HistoryState.mk newVoxels now] in
      history (saveToHistory newVoxels now st)
      = (if MAX_HISTORY <? Z.of_nat (List.length appended) then tl appended else appended)
      /\ canRedo (saveToHistory newVoxels now st) = false
      /\ redo (saveToHistory newVoxels now st) = Some (saveToHistory newVoxels now st))
  /\ (forall x1 y1 t1 x2 y2 t2 x3 y3 t3 x4 y4 t4,
        exists st,
          run [AddVoxel x1 y1 t1; AddVoxel x2 y2 t2; AddVoxel x3 y3 t3;
               Undo; Undo; AddVoxel x4 y4 t4] initial = Some st
          /\ history st
             = [HistoryState.mk (voxels (addVoxel x1 y1 t1 initial)) t1;
                HistoryState.mk (voxels st) t4]
          /\ historyIndex st = 1
          /\ canRedo st = false
          /\ redo st = Some st
          /\ run [AddVoxel x1 y1 t1; AddVoxel x2 y2 t2; AddVoxel x3 y3 t3;
                  Undo; Undo; AddVoxel x4 y4 t4; Redo] initial = Some st).
Proof.
  split.
  - intros st V now Hinv. cbv zeta.
    pose proof (saveToHistory_at_tip V now st Hinv) as Htip.
    assert (Hno : canRedo (saveToHistory V now st) = false).
    { unfold canRedo. apply Z.ltb_ge. lia. }
    split; [apply saveToHistory_history; destruct Hinv; lia|].
    split; [exact Hno|].
    apply redo_at_tip. exact Hno.
  - intros.
    cbn [run step].
    destruct (addVoxel_store x1 y1 t1 initial) as (V1 & HV1 & E1).
    rewrite <- HV1, E1.
    destruct (addVoxel_store x2 y2 t2 (saveToHistory V1 t1 (setVoxels V1 initial)))
      as (V2 & _ & E2).
    rewrite E2.
    destruct (addVoxel_store x3 y3 t3
                (saveToHistory V2 t2
                   (setVoxels V2 (saveToHistory V1 t1 (setVoxels V1 initial)))))
      as (V3 & _ & E3).
    rewrite E3.
    cbv -[addVoxel canRedo redo].
    match goal with
    | |- context [addVoxel x4 y4 t4 ?s] =>
        destruct (addVoxel_store x4 y4 t4 s) as (V4 & _ & E4)
    end.
    rewrite E4.
    eexists. split; [reflexivity|].
    repeat split.
Qed.

Lemma save_discards_redo_branch_witness :
  history_invariant initial
  /\ canRedo (saveToHistory JS.Map.empty 0 initial) = false.
Proof.
  split; [exact initial_invariant|].
  exact (proj1 (proj2 (proj1 save_discards_redo_branch initial JS.Map.empty 0
                         initial_invariant))).
Defined.

(** *** A run of edits from the tip *)

Lemma applyEdit_history (st : State) (e : Edit) :
  history_invariant st -> at_tip st ->
  history (applyEdit st e)
  = skipn (List.length (history st) + 1 - 50)
          (history st ++ [HistoryState.mk (voxels (applyEdit st e)) (snd e)])
  /\ at_tip (applyEdit st e)
  /\ history_invariant (applyEdit st e).
Proof.
  intros Hinv Htip.
  destruct e as [[x y] now]. simpl applyEdit. simpl snd.
  destruct (addVoxel_store x y now st) as (V & HV & E).
  rewrite <- HV, E.
  assert (Hinv' : history_invariant (setVoxels V st)) by exact Hinv.
  split; [|split].
  - rewrite saveToHistory_history by (destruct Hinv'; lia).
    unfold appended, at_tip, MAX_HISTORY in *. simpl.
    destruct Hinv as (Hi & _ & Hmax). unfold MAX_HISTORY in Hmax.
    rewrite firstn_all2 by lia.
    rewrite length_app. simpl.
    destruct (Z.ltb_spec 50 (Z.of_nat (List.length (history st) + 1))) as [Hfull|Hroom].
    + replace (List.length (history st) + 1 - 50)%nat with 1%nat by lia.
      reflexivity.
    + replace (List.length (history st) + 1 - 50)%nat with 0%nat by lia.
      reflexivity.
  - unfold at_tip. apply saveToHistory_at_tip, Hinv'.
  - apply saveToHistory_invariant, Hinv'.
Qed.

Lemma applyEdits_history (es : list Edit) (st : State) :
  history_invariant st -> at_tip st ->
  history (applyEdits es st)
  = skipn (List.length (history st) + List.length es - 50)
          (history st ++ snapshots es st)
  /\ at_tip (applyEdits es st)
  /\ history_invariant (applyEdits es st).
Proof.
  revert st. induction es as [|e es IH]; intros st Hinv Htip.
  - simpl. rewrite app_nil_r.
    assert (Hmax : Z.of_nat (List.length (history st)) <= 50) by apply Hinv.
    replace (List.length (history st) + 0 - 50)%nat with 0%nat by lia.
    split; [reflexivity|]. split; assumption.
  - destruct (applyEdit_history st e Hinv Htip) as (Hh & Htip1 & Hinv1).
    destruct (IH (applyEdit st e) Hinv1 Htip1) as (Hh' & Htip' & Hinv').
    change (applyEdits (e :: es) st) with (applyEdits es (applyEdit st e)).
    split; [|split; assumption].
    rewrite Hh'. change (snapshots (e :: es) st)
      with (HistoryState.mk (voxels (applyEdit st e)) (snd e)
              :: snapshots es (applyEdit st e)).
    set (s1 := HistoryState.mk (voxels (applyEdit st e)) (snd e)) in *.
    set (rest := snapshots es (applyEdit st e)).
    rewrite Hh.
    destruct Hinv as (Hi & He & Hmax). unfold MAX_HISTORY in Hmax.
    assert (Hlen : (List.length (history st) <= 50)%nat) by lia.
    destruct (Nat.eq_dec (List.length (history st)) 50) as [Hfull|Hroom].
    + rewrite Hfull. simpl (50 + 1 - 50)%nat.
      destruct (history st) as [|h0 hs] eqn:Eh; [discriminate|].
      simpl in Hfull. simpl skipn at 2.
      rewrite length_app. simpl List.length.
      replace (List.length hs + 1 + List.length es - 50)%nat
        with (List.length es) by lia.
      replace (50 + S (List.length es) - 50)%nat with (S (List.length es)) by lia.
      simpl. now rewrite <- app_assoc.
    + replace (List.length (history st) + 1 - 50)%nat with 0%nat by lia.
      rewrite skipn_O, length_app, <- app_assoc. simpl.
      f_equal. lia.
Qed.

Lemma snapshots_length (es : list Edit) (st : State) :
  List.length (snapshots es st) = List.length es.
Proof.
  revert st. induction es as [|e es IH]; intros st; simpl; [reflexivity|].
  now rewrite IH.
Qed.

Lemma snapshots_nth (es : list Edit) (st : State) (i : nat) (e : Edit) :
  nth_error es i = Some e ->
  nth_error (snapshots es st) i
  = Some (HistoryState.mk (voxels (applyEdits (firstn (S i) es) st)) (snd e)).
Proof.
  revert st i. induction es as [|e0 es IH]; intros st i Hi.
  - destruct i; discriminate.
  - destruct i as [|j].
    + simpl in Hi. injection Hi as ->. reflexivity.
    + simpl in Hi. simpl nth_error.
      rewrite (IH (applyEdit st e0) j Hi). reflexivity.
Qed.

(** *** Undo down to the oldest snapshot *)

Lemma undoTimes_spec (n : nat) (st : State) :
  history_invariant st ->
  Z.of_nat n <= historyIndex st ->
  exists st',
    undoTimes n st = Some st'
    /\ history st' = history st
    /\ historyIndex st' = historyIndex st - Z.of_nat n
    /\ (0 < n -> exists h,
          nth_error (history st) (Z.to_nat (historyIndex st - Z.of_nat n)) = Some h
          /\ voxels st' = HistoryState.voxels h)%nat.
Proof.
  revert st. induction n as [|k IH]; intros st Hinv Hn.
  - exists st. simpl. repeat split; try lia.
  - simpl undoTimes. unfold undo.
    destruct (Z.ltb_spec 0 (historyIndex st)) as [Hpos|Hzero]; [|lia].
    destruct Hinv as (Hi & He & Hmax).
    destruct (index_in_range (history st) (historyIndex st - 1)) as [h Hh]; [lia|].
    rewrite Hh.
    set (st1 := setVoxels (HistoryState.voxels h)
                  (setHistoryIndex (historyIndex st - 1) st)).
    assert (Hinv1 : history_invariant st1).
    { unfold history_invariant, st1. simpl. repeat split; try lia. }
    destruct (IH st1 Hinv1) as (st' & Hrun & Hhist & Hidx & Hvox).
    { unfold st1. simpl. lia. }
    exists st'. split; [exact Hrun|].
    unfold st1 in Hhist, Hidx, Hvox. simpl in Hhist, Hidx, Hvox.
    split; [exact Hhist|]. split; [lia|].
    intros _. destruct k as [|k'].
    + simpl in Hrun. injection Hrun as <-.
      exists h. split; [|reflexivity].
      unfold JS.index in Hh.
      destruct (historyIndex st - 1 <? 0); [discriminate|].
      replace (historyIndex st - Z.of_nat 1) with (historyIndex st - 1) by lia.
      exact Hh.
    + destruct Hvox as (h' & Hh' & Hv'); [lia|].
      exists h'. split; [|exact Hv'].
      replace (historyIndex st - Z.of_nat (S (S k')))
        with (historyIndex st - 1 - Z.of_nat (S k')) by lia.
      exact Hh'.
Qed.

Lemma NoDup_prefix {A : Type} (k : nat) (l : list A) : NoDup l -> NoDup (firstn k l).
Proof.
  intros H. rewrite <- (firstn_skipn k l) in H.
  exact (NoDup_app_remove_r _ _ H).
Qed.

Lemma applyEdits_prefix_size (k : nat) (es : list Edit) :
  NoDup (List.map editCell es) -> (k <= List.length es)%nat ->
  List.length (voxels (applyEdits (firstn k es) initial)) = k.
Proof.
  intros Hnd Hk.
  rewrite applyEdits_size.
  - simpl. now apply firstn_length_le.
  - apply distinct_cells_distinct_keys. rewrite <- firstn_map.
    now apply NoDup_prefix.
  - reflexivity.
Qed.

Lemma initial_at_tip : at_tip initial.
Proof.
  reflexivity.
Qed.

(** C4.  After sixty edits of distinct cells from the initial state the
    history holds fifty snapshots, those of the last fifty edits, and
    [canUndo] is true.  Forty-nine undos succeed and stop on the oldest
    snapshot kept, where [canUndo] is false and a further undo changes
    nothing; the store is then the one after the eleventh edit, which is not
    the store after the first. *)
Theorem sixty_edits_history_bound (es : list Edit) :
  List.length es = 60%nat ->
  NoDup (List.map editCell es) ->
  let st := applyEdits es initial in
  (List.length (history st) <= 50)%nat
  /\ history st = skipn 10 (snapshots es initial)
  /\ canUndo st = true
  /\ exists st' oldest,
       undoTimes 49 st = Some st'
       /\ hd_error (history st) = Some oldest
       /\ voxels st' = HistoryState.voxels oldest
       /\ history st' = history st
       /\ canUndo st' = false
       /\ undo st' = Some st'
       /\ voxels st' = voxels (applyEdits (firstn 11 es) initial)
       /\ voxels st' <> voxels (applyEdits (firstn 1 es) initial).
Proof.
  intros Hlen Hnd. cbv zeta.
  destruct (applyEdits_history es initial initial_invariant initial_at_tip)
    as (Hh & Htip & Hinv).
  simpl in Hh. rewrite Hlen in Hh. simpl (60 - 50)%nat in Hh.
  assert (Hsize : List.length (history (applyEdits es initial)) = 50%nat).
  { rewrite Hh, length_skipn, snapshots_length, Hlen. reflexivity. }
  assert (Hidx : historyIndex (applyEdits es initial) = 49).
  { unfold at_tip in Htip. rewrite Htip, Hsize. reflexivity. }
  split; [lia|]. split; [exact Hh|].
  split; [unfold canUndo; now rewrite Hidx|].
  destruct (undoTimes_spec 49 (applyEdits es initial) Hinv)
    as (st' & Hrun & Hhist & Hidx' & Hvox); [rewrite Hidx; simpl; lia|].
  destruct Hvox as (h & Hh0 & Hv); [lia|].
  rewrite Hidx in Hidx', Hh0. simpl in Hidx'.
  change (Z.to_nat (49 - Z.of_nat 49)) with 0%nat in Hh0.
  destruct (nth_error es 10) as [e|] eqn:He;
    [|apply nth_error_None in He; lia].
  assert (Hold : h = HistoryState.mk
                       (voxels (applyEdits (firstn 11 es) initial)) (snd e)).
  { rewrite Hh, nth_error_skipn in Hh0. simpl (10 + 0)%nat in Hh0.
    rewrite (snapshots_nth es initial 10 e He) in Hh0. now injection Hh0. }
  exists st', h.
  split; [exact Hrun|].
  split; [destruct (history (applyEdits es initial)); exact Hh0|].
  split; [exact Hv|]. split; [exact Hhist|].
  split; [unfold canUndo; now rewrite Hidx'|].
  split; [unfold undo; now rewrite Hidx'|].
  split; [rewrite Hv, Hold; reflexivity|].
  rewrite Hv, Hold. cbn [HistoryState.voxels]. intros Heq.
  apply (f_equal (@List.length _)) in Heq.
  rewrite !applyEdits_prefix_size in Heq by (assumption || lia).
  discriminate.
Qed.

Lemma sixtyCells_distinct : NoDup (List.map editCell sixtyCells).
Proof.
  unfold sixtyCells. rewrite map_map.
  apply Injective_map_NoDup; [|apply seq_NoDup].
  intros i j E. unfold editCell in E. cbn [fst] in E.
  injection E as Hmod Hdiv.
  apply Nat2Z.inj in Hmod, Hdiv.
  change (i mod 20 = j mod 20)%nat in Hmod.
  change (i / 20 = j / 20)%nat in Hdiv.
  rewrite (Nat.div_mod_eq i 20), (Nat.div_mod_eq j 20).
  now rewrite Hmod, Hdiv.
Qed.

Lemma sixty_edits_history_bound_witness :
  let st := applyEdits sixtyCells initial in
  (List.length (history st) <= 50)%nat
  /\ history st = skipn 10 (snapshots sixtyCells initial)
  /\ canUndo st = true
  /\ exists st' oldest,
       undoTimes 49 st = Some st'
       /\ hd_error (history st) = Some oldest
       /\ voxels st' = HistoryState.voxels oldest
       /\ history st' = history st
       /\ canUndo st' = false
       /\ undo st' = Some st'
       /\ voxels st' = voxels (applyEdits (firstn 11 sixtyCells) initial)
       /\ voxels st' <> voxels (applyEdits (firstn 1 sixtyCells) initial).
Proof.
  apply (sixty_edits_history_bound sixtyCells).
  - reflexivity.
  - exact sixtyCells_distinct.
Defined.

End History.

(** ** Stores and snapshots of reachable states *)

Section WellFormed.

Import useVoxelGrid.

Lemma Map_get_In {V : Type} (k : string) (v : V) (m : JS.Map.t V) :
  JS.Map.get k m = Some v -> In (k, v) m.
Proof.
  induction m as [|[k0 v0] r IH]; simpl; [discriminate|].
  destruct (String.eqb_spec k0 k) as [->|_].
  - intros [= ->]. now left.
  - intros H. right. auto.
Qed.

Lemma Map_get_None_keys {V : Type} (k : string) (m : JS.Map.t V) :
  JS.Map.get k m = None <-> ~ In k (List.map fst m).
Proof.
  induction m as [|[k0 v0] r IH]; simpl.
  - tauto.
  - destruct (String.eqb_spec k0 k) as [->|Hne].
    + split; [discriminate | intros H; exfalso; apply H; now left].
    + rewrite IH. tauto.
Qed.

Lemma Map_set_keys {V : Type} (k : string) (v : V) (m : JS.Map.t V) :
  List.map fst (JS.Map.set k v m)
  = if JS.Map.has k m then List.map fst m else List.map fst m ++ [k].
Proof.
  unfold JS.Map.has.
  induction m as [|[k0 v0] r IH]; simpl; [reflexivity|].
  destruct (String.eqb_spec k0 k) as [->|Hne]; simpl; [reflexivity|].
  rewrite IH. now destruct (JS.Map.get k r).
Qed.

Lemma Map_set_In {V : Type} (k : string) (v : V) (m : JS.Map.t V) (kv : string * V) :
  In kv (JS.Map.set k v m) -> kv = (k, v) \/ In kv m.
Proof.
  induction m as [|[k0 v0] r IH]; simpl.
  - intros [<-|[]]. now left.
  - destruct (String.eqb_spec k0 k) as [->|Hne]; simpl.
    + intros [<-|H]; auto.
    + intros [<-|H]; auto. destruct (IH H); auto.
Qed.

Lemma Map_delete_incl {V : Type} (k : string) (m : JS.Map.t V) (kv : string * V) :
  In kv (JS.Map.delete k m) -> In kv m.
Proof.
  induction m as [|[k0 v0] r IH]; simpl; [tauto|].
  destruct (String.eqb k0 k); simpl; intuition.
Qed.

Lemma Map_delete_keys_incl {V : Type} (k k' : string) (m : JS.Map.t V) :
  In k' (List.map fst (JS.Map.delete k m)) -> In k' (List.map fst m).
Proof.
  induction m as [|[k0 v0] r IH]; simpl; [tauto|].
  destruct (String.eqb k0 k); simpl; intuition.
Qed.

Lemma Map_delete_NoDup {V : Type} (k : string) (m : JS.Map.t V) :
  NoDup (List.map fst m) -> NoDup (List.map fst (JS.Map.delete k m)).
Proof.
  induction m as [|[k0 v0] r IH]; simpl; [auto|].
  intros H. inversion H as [|? ? Hnotin Hr]; subst.
  destruct (String.eqb k0 k); simpl; [exact Hr|].
  constructor; [|auto].
  intros Hin. apply Hnotin. eapply Map_delete_keys_incl, Hin.
Qed.

Lemma Map_get_delete_same {V : Type} (k : string) (m : JS.Map.t V) :
  NoDup (List.map fst m) -> JS.Map.get k (JS.Map.delete k m) = None.
Proof.
  induction m as [|[k0 v0] r IH]; simpl; [reflexivity|].
  intros H. inversion H as [|? ? Hnotin Hr]; subst.
  destruct (String.eqb_spec k0 k) as [->|Hne]; simpl.
  - now apply Map_get_None_keys.
  - destruct (String.eqb_spec k0 k); [contradiction | auto].
Qed.

Lemma Map_get_delete_other {V : Type} (k k' : string) (m : JS.Map.t V) :
  k <> k' -> JS.Map.get k' (JS.Map.delete k m) = JS.Map.get k' m.
Proof.
  intros Hk. induction m as [|[k0 v0] r IH]; simpl; [reflexivity|].
  destruct (String.eqb_spec k0 k) as [->|Hne]; simpl.
  - destruct (String.eqb_spec k k'); [contradiction | reflexivity].
  - now rewrite IH.
Qed.

Lemma store_ok_empty : store_ok JS.Map.empty.
Proof.
  split; constructor.
Qed.

Lemma store_ok_set (k : string) (v : Voxel.t) (m : VoxelMap) :
  store_ok m -> k = getKey (Voxel.x v) (Voxel.y v) -> store_ok (JS.Map.set k v m).
Proof.
  intros [Hnd Hk] Hv. split.
  - rewrite Map_set_keys. unfold JS.Map.has.
    destruct (JS.Map.get k m) eqn:E; [exact Hnd|].
    apply NoDup_app; [exact Hnd | repeat constructor; simpl; tauto |].
    intros a Ha [<-|[]]. now apply (proj1 (Map_get_None_keys k m)).
  - apply Forall_forall. intros kv Hin.
    destruct (Map_set_In _ _ _ _ Hin) as [->|Hold].
    + exact Hv.
    + exact (proj1 (Forall_forall _ _) Hk kv Hold).
Qed.

Lemma store_ok_delete (k : string) (m : VoxelMap) :
  store_ok m -> store_ok (JS.Map.delete k m).
Proof.
  intros [Hnd Hk]. split.
  - now apply Map_delete_NoDup.
  - apply Forall_forall. intros kv Hin.
    exact (proj1 (Forall_forall _ _) Hk kv (Map_delete_incl _ _ _ Hin)).
Qed.

Lemma store_ok_addVoxel (x y now : Z) (st : State) :
  store_ok (voxels st) -> store_ok (voxels (addVoxel x y now st)).
Proof.
  intros Hok. unfold addVoxel. cbv zeta. rewrite saveToHistory_voxels. simpl.
  destruct (JS.Map.get (getKey x y) (voxels st)) as [old|] eqn:Hget.
  - assert (Hold : getKey x y = getKey (Voxel.x old) (Voxel.y old)).
    { apply Map_get_In in Hget.
      exact (proj1 (Forall_forall _ _) (proj2 Hok) _ Hget). }
    destruct (String.eqb (Voxel.color old) (selectedColor st));
      apply store_ok_set; auto.
  - apply store_ok_set; auto.
Qed.

(** *** A property of stores through the events *)

Lemma In_firstn {A : Type} (n : nat) (l : list A) (a : A) :
  In a (firstn n l) -> In a l.
Proof.
  intros H. rewrite <- (firstn_skipn n l). apply in_or_app. now left.
Qed.

Lemma saveToHistory_Forall (P : HistoryState.t -> Prop) (V : VoxelMap) (now : Z)
    (st : State) :
  Forall P (history st) -> P (HistoryState.mk V now) ->
  Forall P (history (saveToHistory V now st)).
Proof.
  intros Hh Hs. unfold saveToHistory, JS.slice0.
  set (k := Z.to_nat _).
  assert (Hnew : Forall P (firstn k (history st) ++ [HistoryState.mk V now])).
  { apply Forall_app. split; [|now constructor].
    apply Forall_forall. intros h Hin.
    exact (proj1 (Forall_forall _ _) Hh h (In_firstn _ _ _ Hin)). }
  destruct (MAX_HISTORY <? _); simpl; [|exact Hnew].
  destruct (firstn k (history st) ++ [HistoryState.mk V now]) as [|h0 hs];
    [constructor | now inversion Hnew].
Qed.

Lemma all_stores_save (P : VoxelMap -> Prop) (V : VoxelMap) (now : Z) (st : State) :
  all_stores P st -> P V -> all_stores P (saveToHistory V now (setVoxels V st)).
Proof.
  intros [_ Hh] HV. split.
  - now rewrite saveToHistory_voxels.
  - now apply saveToHistory_Forall.
Qed.

Lemma index_In {A : Type} (l : list A) (i : Z) (a : A) :
  JS.index l i = Some a -> In a l.
Proof.
  unfold JS.index. destruct (i <? 0); [discriminate|]. apply nth_error_In.
Qed.

Lemma all_stores_undo (P : VoxelMap -> Prop) (st st' : State) :
  all_stores P st -> undo st = Some st' -> all_stores P st'.
Proof.
  intros [Hv Hh]. unfold undo.
  destruct (0 <? historyIndex st); [|intros [= <-]; now split].
  destruct (JS.index (history st) (historyIndex st - 1)) as [h|] eqn:E; [|discriminate].
  intros [= <-]. split; [|exact Hh]. simpl.
  exact (proj1 (Forall_forall _ _) Hh h (index_In _ _ _ E)).
Qed.

Lemma all_stores_redo (P : VoxelMap -> Prop) (st st' : State) :
  all_stores P st -> redo st = Some st' -> all_stores P st'.
Proof.
  intros [Hv Hh]. unfold redo.
  destruct (historyIndex st <? _); [|intros [= <-]; now split].
  destruct (JS.index (history st) (historyIndex st + 1)) as [h|] eqn:E; [|discriminate].
  intros [= <-]. split; [|exact Hh]. simpl.
  exact (proj1 (Forall_forall _ _) Hh h (index_In _ _ _ E)).
Qed.

Lemma step_store_ok (e : Event) (st st' : State) :
  all_stores store_ok st -> step e st = Some st' -> all_stores store_ok st'.
Proof.
  intros Hok.
  destruct e as [x y now|x y now|now| | |c|h|a]; simpl.
  - intros [= <-]. rewrite addVoxel_save.
    apply all_stores_save; [exact Hok|]. apply store_ok_addVoxel, Hok.
  - intros [= <-]. unfold removeVoxel.
    destruct (JS.Map.has _ _); [|exact Hok].
    apply all_stores_save; [exact Hok|]. apply store_ok_delete, Hok.
  - intros [= <-]. unfold clearGrid.
    apply all_stores_save; [exact Hok | exact store_ok_empty].
  - apply all_stores_undo, Hok.
  - apply all_stores_redo, Hok.
  - intros [= <-]. exact Hok.
  - intros [= <-]. exact Hok.
  - intros [= <-]. exact Hok.
Qed.

(** *** The snapshot under the index *)

Lemma index_last {A : Type} (older : list A) (a : A) :
  JS.index (older ++ [a]) (Z.of_nat (List.length (older ++ [a])) - 1) = Some a.
Proof.
  unfold JS.index. rewrite length_app. simpl List.length.
  destruct (Z.ltb_spec (Z.of_nat (List.length older + 1) - 1) 0) as [H|_]; [lia|].
  replace (Z.to_nat (Z.of_nat (List.length older + 1) - 1)) with (List.length older) by lia.
  rewrite nth_error_app2 by lia. now rewrite Nat.sub_diag.
Qed.

Lemma save_current_snapshot (V : VoxelMap) (now : Z) (st : State) :
  history_invariant st ->
  current_snapshot (saveToHistory V now (setVoxels V st)).
Proof.
  intros Hinv _.
  assert (Hinv' : history_invariant (setVoxels V st)) by exact Hinv.
  rewrite (saveToHistory_at_tip V now _ Hinv').
  destruct (saveToHistory_last V now (setVoxels V st)) as [older Hold].
  rewrite Hold. exists (HistoryState.mk V now).
  split; [apply index_last | now rewrite saveToHistory_voxels].
Qed.

Lemma undo_current_snapshot (st st' : State) :
  current_snapshot st -> undo st = Some st' -> current_snapshot st'.
Proof.
  intros Hcur. unfold undo.
  destruct (0 <? historyIndex st); [|now intros [= <-]].
  destruct (JS.index (history st) (historyIndex st - 1)) as [h|] eqn:E; [|discriminate].
  intros [= <-] _. simpl. now exists h.
Qed.

Lemma redo_current_snapshot (st st' : State) :
  current_snapshot st -> redo st = Some st' -> current_snapshot st'.
Proof.
  intros Hcur. unfold redo.
  destruct (historyIndex st <? _); [|now intros [= <-]].
  destruct (JS.index (history st) (historyIndex st + 1)) as [h|] eqn:E; [|discriminate].
  intros [= <-] _. simpl. now exists h.
Qed.

(** An edit is the save of the store it computes. *)
Lemma edit_is_save (e : Event) (st : State) :
  is_edit e st ->
  exists V now, step e st = Some (saveToHistory V now (setVoxels V st)).
Proof.
  destruct e as [x y now|x y now|now| | |c|h|a]; simpl; intros He; try contradiction.
  - rewrite addVoxel_save. eauto.
  - unfold removeVoxel. unfold hasVoxel in He. rewrite He. eauto.
  - unfold clearGrid. eauto.
Qed.

Lemma step_current_snapshot (e : Event) (st st' : State) :
  history_invariant st -> current_snapshot st ->
  step e st = Some st' -> current_snapshot st'.
Proof.
  intros Hinv Hcur.
  destruct e as [x y now|x y now|now| | |c|h|a]; simpl.
  - intros [= <-]. rewrite addVoxel_save. now apply save_current_snapshot.
  - intros [= <-]. unfold removeVoxel.
    destruct (JS.Map.has _ _); [|exact Hcur]. now apply save_current_snapshot.
  - intros [= <-]. now apply save_current_snapshot.
  - now apply undo_current_snapshot.
  - now apply redo_current_snapshot.
  - intros [= <-]. exact Hcur.
  - intros [= <-]. exact Hcur.
  - intros [= <-]. exact Hcur.
Qed.

Lemma step_well_formed (e : Event) (st st' : State) :
  well_formed st -> step e st = Some st' -> well_formed st'.
Proof.
  intros (Hinv & Hcur & Hok) Hstep. split; [|split].
  - destruct (step_invariant e st Hinv) as (st'' & Hstep' & Hinv'). congruence.
  - exact (step_current_snapshot e st st' Hinv Hcur Hstep).
  - exact (step_store_ok e st st' Hok Hstep).
Qed.

Lemma run_well_formed (es : list Event) (st st' : State) :
  well_formed st -> run es st = Some st' -> well_formed st'.
Proof.
  revert st. induction es as [|e es IH]; intros st Hwf; simpl.
  - now intros [= <-].
  - destruct (step e st) as [st1|] eqn:E; [|discriminate].
    apply IH. exact (step_well_formed e st st1 Hwf E).
Qed.

Lemma initial_well_formed : well_formed initial.
Proof.
  split; [exact initial_invariant|]. split.
  - intros H. simpl in H. lia.
  - split; [exact store_ok_empty | constructor].
Qed.

Lemma reachable_well_formed (st : State) : reachable st -> well_formed st.
Proof.
  intros [es Hrun]. exact (run_well_formed es initial st initial_well_formed Hrun).
Qed.

Lemma store_ok_get (m : VoxelMap) (x y : Z) (v : Voxel.t) :
  store_ok m -> JS.Map.get (getKey x y) m = Some v ->
  Voxel.x v = x /\ Voxel.y v = y.
Proof.
  intros [_ Hk] Hget. apply Map_get_In in Hget.
  pose proof (proj1 (Forall_forall _ _) Hk _ Hget) as E. unfold keyed in E. simpl in E.
  destruct (getKey_inj _ _ _ _ E) as [-> ->]. auto.
Qed.

(** X1.  In every reachable state a voxel found under the key of a cell
    carries the coordinates of that cell, in the store and in every snapshot
    of the history. *)
Theorem reachable_store_coherent (st : State) :
  reachable st ->
  (forall x y v, getVoxel x y st = Some v -> Voxel.x v = x /\ Voxel.y v = y)
  /\ (forall h x y v,
        In h (history st) ->
        JS.Map.get (getKey x y) (HistoryState.voxels h) = Some v ->
        Voxel.x v = x /\ Voxel.y v = y).
Proof.
  intros Hr. destruct (reachable_well_formed st Hr) as (_ & _ & Hv & Hh).
  split.
  - intros x y v. apply store_ok_get, Hv.
  - intros h x y v Hin. apply store_ok_get.
    exact (proj1 (Forall_forall _ _) Hh h Hin).
Qed.

(** X2.  In every reachable state with a snapshot, the snapshot under the
    index holds the store: the store and the history never drift apart. *)
Theorem reachable_current_snapshot (st : State) :
  reachable st -> history st <> [] ->
  exists h,
    JS.index (history st) (historyIndex st) = Some h
    /\ HistoryState.voxels h = voxels st.
Proof.
  intros Hr Hne. destruct (reachable_well_formed st Hr) as ((Hi & Hempty & _) & Hcur & _).
  apply Hcur.
  destruct (Z.eq_dec (historyIndex st) (-1)) as [E|E]; [|lia].
  now apply Hempty in E.
Qed.

End WellFormed.

(** ** Edits, undo and redo together *)

Section Editing.

Import useVoxelGrid.

Lemma twoEdits_reachable : reachable twoEdits.
Proof.
  exists [AddVoxel 1 2 10; AddVoxel 3 4 11]. reflexivity.
Qed.

Lemma twoEditsUndone_reachable : reachable twoEditsUndone.
Proof.
  exists [AddVoxel 1 2 10; AddVoxel 3 4 11; Undo]. reflexivity.
Qed.

Lemma reachable_store_coherent_witness :
  reachable twoEdits
  /\ (forall x y v,
        getVoxel x y twoEdits = Some v -> Voxel.x v = x /\ Voxel.y v = y).
Proof.
  exact (conj twoEdits_reachable
              (proj1 (reachable_store_coherent twoEdits twoEdits_reachable))).
Defined.

Lemma reachable_current_snapshot_witness :
  exists h,
    JS.index (history twoEditsUndone) (historyIndex twoEditsUndone) = Some h
    /\ HistoryState.voxels h = voxels twoEditsUndone.
Proof.
  apply (reachable_current_snapshot twoEditsUndone twoEditsUndone_reachable).
  vm_compute. discriminate.
Defined.

Lemma index_nth_error {A : Type} (l : list A) (i : Z) (a : A) :
  JS.index l i = Some a -> 0 <= i /\ nth_error l (Z.to_nat i) = Some a.
Proof.
  unfold JS.index. destruct (Z.ltb_spec i 0); [discriminate|]. auto.
Qed.

Lemma nth_error_index {A : Type} (l : list A) (i : Z) :
  0 <= i -> JS.index l i = nth_error l (Z.to_nat i).
Proof.
  intros H. unfold JS.index. destruct (Z.ltb_spec i 0); [lia | reflexivity].
Qed.

(** Below the index the array of a save is the history it started from. *)
Lemma appended_nth (V : VoxelMap) (now : Z) (st : State) (i : nat) :
  history_invariant st -> Z.of_nat i <= historyIndex st ->
  nth_error (appended V now st) i = nth_error (history st) i.
Proof.
  intros (Hi & _ & _) Hle. unfold appended.
  rewrite nth_error_app1 by (rewrite firstn_length_le; lia).
  rewrite nth_error_firstn.
  destruct (Nat.ltb_spec i (Z.to_nat (historyIndex st + 1))); [reflexivity | lia].
Qed.

(** Undo right after a save goes back to the store the save started from. *)
Lemma undo_after_save (V : VoxelMap) (now : Z) (st : State) :
  well_formed st -> 0 <= historyIndex st ->
  exists st2,
    undo (saveToHistory V now (setVoxels V st)) = Some st2
    /\ voxels st2 = voxels st
    /\ history st2 = history (saveToHistory V now (setVoxels V st))
    /\ redo st2 = Some (saveToHistory V now (setVoxels V st)).
Proof.
  intros (Hinv & Hcur & _) Hpos.
  destruct (Hcur Hpos) as (h & Hh & Hhv).
  apply index_nth_error in Hh. destruct Hh as [_ Hh].
  set (st0 := setVoxels V st).
  assert (Hinv0 : history_invariant st0) by exact Hinv.
  pose proof (appended_length V now st0 Hinv0) as Hlen.
  pose proof (saveToHistory_history V now st0) as Hhist.
  pose proof (saveToHistory_historyIndex V now st0) as Hidx.
  pose proof (saveToHistory_at_tip V now st0 Hinv0) as Htip.
  pose proof (save_current_snapshot V now st Hinv) as Hcur1. fold st0 in Hcur1.
  pose proof (saveToHistory_voxels V now st0) as Hvox.
  assert (Hi0 : historyIndex st0 = historyIndex st) by reflexivity.
  assert (Hbelow : nth_error (appended V now st0) (Z.to_nat (historyIndex st)) = Some h).
  { rewrite <- Hh. apply (appended_nth V now st0); [exact Hinv0 | rewrite Hi0; lia]. }
  set (st1 := saveToHistory V now st0) in *.
  destruct Hinv as (Hi & _ & Hmax). unfold MAX_HISTORY in *.
  rewrite Hi0 in *.
  specialize (Hhist ltac:(lia)). specialize (Hidx ltac:(lia)).
  assert (Hprev : JS.index (history st1) (historyIndex st1 - 1) = Some h).
  { rewrite Hhist, Hidx.
    destruct (Z.ltb_spec 50 (Z.of_nat (List.length (appended V now st0)))) as [Hfull|Hroom].
    - rewrite nth_error_index by lia. rewrite <- nth_error_S.
      replace (S (Z.to_nat (historyIndex st - 1))) with (Z.to_nat (historyIndex st)) by lia.
      exact Hbelow.
    - rewrite nth_error_index by lia.
      replace (Z.to_nat (historyIndex st + 1 - 1)) with (Z.to_nat (historyIndex st)) by lia.
      exact Hbelow. }
  assert (Hpos1 : 0 < historyIndex st1).
  { rewrite Hidx. destruct (Z.ltb_spec 50 (Z.of_nat (List.length (appended V now st0)))); lia. }
  exists (setVoxels (HistoryState.voxels h) (setHistoryIndex (historyIndex st1 - 1) st1)).
  split.
  { unfold undo. destruct (Z.ltb_spec 0 (historyIndex st1)); [|lia]. now rewrite Hprev. }
  split; [exact Hhv|]. split; [reflexivity|].
  unfold redo. simpl.
  destruct (Z.ltb_spec (historyIndex st1 - 1) (Z.of_nat (List.length (history st1)) - 1));
    [|lia].
  replace (historyIndex st1 - 1 + 1) with (historyIndex st1) by lia.
  destruct (Hcur1 ltac:(lia)) as (h1 & Hh1 & Hv1).
  rewrite Hh1, Hv1. destruct st1; reflexivity.
Qed.

(** X3.  Undo right after an edit, in a reachable state that already has
    a snapshot, brings back the store as it was before the edit, and redo
    then gives the state after the edit again. *)
Theorem undo_restores_store_before_edit (e : Event) (st : State) :
  reachable st -> history st <> [] -> is_edit e st ->
  exists st1 st2,
    step e st = Some st1
    /\ undo st1 = Some st2
    /\ voxels st2 = voxels st
    /\ redo st2 = Some st1.
Proof.
  intros Hr Hne He.
  pose proof (reachable_well_formed st Hr) as Hwf.
  destruct (edit_is_save e st He) as (V & now & Hstep).
  assert (Hpos : 0 <= historyIndex st).
  { destruct Hwf as ((Hi & Hempty & _) & _).
    destruct (Z.eq_dec (historyIndex st) (-1)) as [E|E]; [|lia].
    now apply Hempty in E. }
  destruct (undo_after_save V now st Hwf Hpos) as (st2 & Hu & Hv & _ & Hre).
  eauto 6.
Qed.

Lemma undo_restores_store_before_edit_witness :
  exists st1 st2,
    step (RemoveVoxel 1 2 12) twoEdits = Some st1
    /\ undo st1 = Some st2
    /\ voxels st2 = voxels twoEdits
    /\ redo st2 = Some st1.
Proof.
  apply (undo_restores_store_before_edit (RemoveVoxel 1 2 12) twoEdits).
  - exact twoEdits_reachable.
  - vm_compute. discriminate.
  - vm_compute. reflexivity.
Defined.

(** X4.  The first edit cannot be undone: in a state without snapshot, as
    the initial one, an edit leaves one snapshot under index 0, [canUndo] is
    false and [undo] returns the state unchanged, so the store before the
    edit is out of reach. *)
Theorem first_edit_cannot_be_undone (e : Event) (st st1 : State) :
  history st = [] -> historyIndex st = -1 -> is_edit e st ->
  step e st = Some st1 ->
  List.length (history st1) = 1%nat
  /\ historyIndex st1 = 0
  /\ canUndo st1 = false
  /\ canRedo st1 = false
  /\ undo st1 = Some st1.
Proof.
  intros Hh Hi He Hstep.
  destruct (edit_is_save e st He) as (V & now & Hsave).
  rewrite Hsave in Hstep. injection Hstep as <-.
  assert (E : history (saveToHistory V now (setVoxels V st)) = [HistoryState.mk V now]
              /\ historyIndex (saveToHistory V now (setVoxels V st)) = 0).
  { unfold saveToHistory. simpl. rewrite Hh, Hi. simpl. auto. }
  destruct E as [E1 E2].
  unfold canUndo, canRedo, undo. rewrite E1, E2. simpl. auto.
Qed.

Lemma first_edit_cannot_be_undone_witness :
  canUndo (addVoxel 5 5 1 initial) = false
  /\ undo (addVoxel 5 5 1 initial) = Some (addVoxel 5 5 1 initial).
Proof.
  assert (H := first_edit_cannot_be_undone (AddVoxel 5 5 1) initial
                 (addVoxel 5 5 1 initial) eq_refl eq_refl I eq_refl).
  exact (conj (proj1 (proj2 (proj2 H))) (proj2 (proj2 (proj2 (proj2 H))))).
Defined.

(** X5.  In a reachable state undo and redo are inverse of each other on
    the whole state: when [canUndo] holds, undo then redo gives the state
    back, and when [canRedo] holds, redo then undo does. *)
Theorem undo_redo_round_trip (st : State) :
  reachable st ->
  (canUndo st = true -> exists st1, undo st = Some st1 /\ redo st1 = Some st)
  /\ (canRedo st = true -> exists st1, redo st = Some st1 /\ undo st1 = Some st).
Proof.
  intros Hr.
  destruct (reachable_well_formed st Hr) as ((Hi & Hempty & Hmax) & Hcur & _).
  split.
  - unfold canUndo. intros Hc. apply Z.ltb_lt in Hc.
    destruct (Hcur ltac:(lia)) as (h & Hh & Hv).
    destruct (index_in_range (history st) (historyIndex st - 1)) as [h' Hh']; [lia|].
    exists (setVoxels (HistoryState.voxels h') (setHistoryIndex (historyIndex st - 1) st)).
    split.
    + unfold undo. destruct (Z.ltb_spec 0 (historyIndex st)); [|lia]. now rewrite Hh'.
    + unfold redo. simpl.
      destruct (Z.ltb_spec (historyIndex st - 1) (Z.of_nat (List.length (history st)) - 1));
        [|lia].
      replace (historyIndex st - 1 + 1) with (historyIndex st) by lia.
      rewrite Hh, Hv. destruct st; reflexivity.
  - unfold canRedo. intros Hc. apply Z.ltb_lt in Hc.
    destruct (index_in_range (history st) (historyIndex st + 1)) as [h' Hh']; [lia|].
    exists (setVoxels (HistoryState.voxels h') (setHistoryIndex (historyIndex st + 1) st)).
    split.
    + unfold redo.
      destruct (Z.ltb_spec (historyIndex st) (Z.of_nat (List.length (history st)) - 1));
        [|lia].
      now rewrite Hh'.
    + assert (Hpos : 0 <= historyIndex st).
      { destruct (Z.eq_dec (historyIndex st) (-1)) as [E|E]; [|lia].
        apply Hempty in E. rewrite E in Hc. simpl in Hc. lia. }
      destruct (Hcur Hpos) as (h & Hh & Hv).
      unfold undo. simpl.
      destruct (Z.ltb_spec 0 (historyIndex st + 1)); [|lia].
      replace (historyIndex st + 1 - 1) with (historyIndex st) by lia.
      rewrite Hh, Hv. destruct st; reflexivity.
Qed.

Lemma undo_redo_round_trip_witness :
  (exists st1, undo twoEdits = Some st1 /\ redo st1 = Some twoEdits)
  /\ (exists st1, redo twoEditsUndone = Some st1 /\ undo st1 = Some twoEditsUndone).
Proof.
  split.
  - apply (proj1 (undo_redo_round_trip twoEdits twoEdits_reachable)).
    vm_compute. reflexivity.
  - apply (proj2 (undo_redo_round_trip twoEditsUndone twoEditsUndone_reachable)).
    vm_compute. reflexivity.
Defined.

End Editing.

(** ** What an edit does to the other cells *)

Section Cells.

Import useVoxelGrid.

Lemma getKey_other (x y x' y' : Z) : (x', y') <> (x, y) -> getKey x y <> getKey x' y'.
Proof.
  intros Hne E. destruct (getKey_inj _ _ _ _ E) as [-> ->]. now apply Hne.
Qed.

(** X6.  [addVoxel] touches one cell: a lookup of any other cell answers
    after it as before. *)
Theorem addVoxel_other_cells (x y now x' y' : Z) (st : State) :
  (x', y') <> (x, y) ->
  getVoxel x' y' (addVoxel x y now st) = getVoxel x' y' st
  /\ hasVoxel x' y' (addVoxel x y now st) = hasVoxel x' y' st.
Proof.
  intros Hne.
  assert (E : getVoxel x' y' (addVoxel x y now st) = getVoxel x' y' st).
  { unfold getVoxel. destruct (addVoxel_voxels x y now st) as [v ->].
    apply Map_get_set_other. now apply getKey_other. }
  split; [exact E|].
  unfold hasVoxel, JS.Map.has. unfold getVoxel in E. now rewrite E.
Qed.

Lemma addVoxel_other_cells_witness :
  getVoxel 1 2 (addVoxel 2 1 12 twoEdits) = getVoxel 1 2 twoEdits
  /\ hasVoxel 1 2 (addVoxel 2 1 12 twoEdits) = hasVoxel 1 2 twoEdits.
Proof.
  apply (addVoxel_other_cells 2 1 12 1 2 twoEdits).
  discriminate.
Defined.

(** X7.  In a reachable state, [removeVoxel] on a cell that holds a voxel
    empties that cell, leaves every other cell as it was, and ends the
    history with a snapshot of the new store. *)
Theorem removeVoxel_present (x y now : Z) (st : State) :
  reachable st -> hasVoxel x y st = true ->
  let st' := removeVoxel x y now st in
  hasVoxel x y st' = false
  /\ getVoxel x y st' = None
  /\ (forall x' y', (x', y') <> (x, y) -> getVoxel x' y' st' = getVoxel x' y' st)
  /\ S (List.length (voxels st')) = List.length (voxels st)
  /\ (exists older, history st' = older ++ [HistoryState.mk (voxels st') now]).
Proof.
  intros Hr Hhas. cbv zeta.
  destruct (reachable_well_formed st Hr) as (_ & _ & (Hnd & _) & _).
  assert (Hv : voxels (removeVoxel x y now st) = JS.Map.delete (getKey x y) (voxels st)).
  { unfold removeVoxel. unfold hasVoxel in Hhas. rewrite Hhas.
    now rewrite saveToHistory_voxels. }
  assert (Hnone : getVoxel x y (removeVoxel x y now st) = None).
  { unfold getVoxel. rewrite Hv. now apply Map_get_delete_same. }
  split; [unfold hasVoxel, JS.Map.has; unfold getVoxel in Hnone; now rewrite Hnone|].
  split; [exact Hnone|].
  split.
  { intros x' y' Hne. unfold getVoxel. rewrite Hv.
    apply Map_get_delete_other. now apply getKey_other. }
  split.
  { rewrite Hv. unfold hasVoxel, JS.Map.has in Hhas. clear -Hhas.
    induction (voxels st) as [|[k0 v0] r IH]; simpl in *; [discriminate|].
    destruct (String.eqb k0 (getKey x y)); simpl; [reflexivity|].
    now rewrite IH. }
  rewrite Hv. unfold removeVoxel. unfold hasVoxel in Hhas. rewrite Hhas.
  apply saveToHistory_last.
Qed.

Lemma removeVoxel_present_witness :
  hasVoxel 1 2 (removeVoxel 1 2 12 twoEdits) = false
  /\ getVoxel 3 4 (removeVoxel 1 2 12 twoEdits) = getVoxel 3 4 twoEdits.
Proof.
  assert (Hhas : hasVoxel 1 2 twoEdits = true) by (vm_compute; reflexivity).
  assert (H := removeVoxel_present 1 2 12 twoEdits twoEdits_reachable Hhas).
  cbv zeta in H.
  split; [exact (proj1 H)|].
  apply (proj1 (proj2 (proj2 H))). discriminate.
Defined.

(** X8.  [clearGrid] empties the store whatever it held, and always takes
    a snapshot of the empty store, also when the store was empty already:
    in a state that keeps the history invariant and whose index is below
    49, the index goes up by one, and nothing is left to redo. *)
Theorem clearGrid_always_snapshots (now : Z) (st : State) :
  history_invariant st ->
  voxels (clearGrid now st) = JS.Map.empty
  /\ (forall x y, hasVoxel x y (clearGrid now st) = false)
  /\ (exists older, history (clearGrid now st)
                     = older ++ [HistoryState.mk JS.Map.empty now])
  /\ canRedo (clearGrid now st) = false
  /\ (historyIndex st < 49 ->
      historyIndex (clearGrid now st) = historyIndex st + 1
      /\ canUndo (clearGrid now st) = (0 <=? historyIndex st)).
Proof.
  intros Hinv. unfold clearGrid. cbv zeta.
  set (st0 := setVoxels JS.Map.empty st).
  assert (Hinv0 : history_invariant st0) by exact Hinv.
  assert (Hv : voxels (saveToHistory JS.Map.empty now st0) = JS.Map.empty)
    by now rewrite saveToHistory_voxels.
  split; [exact Hv|].
  split; [intros x y; unfold hasVoxel; now rewrite Hv|].
  split; [apply saveToHistory_last|].
  split.
  { unfold canRedo. apply Z.ltb_ge.
    rewrite (saveToHistory_at_tip _ _ _ Hinv0). lia. }
  intros Hlow.
  pose proof (appended_length JS.Map.empty now st0 Hinv0) as Hlen.
  destruct Hinv as (Hi & _ & _).
  assert (E : historyIndex (saveToHistory JS.Map.empty now st0) = historyIndex st + 1).
  { rewrite saveToHistory_historyIndex by (simpl; lia).
    unfold MAX_HISTORY.
    destruct (Z.ltb_spec 50 (Z.of_nat (List.length (appended JS.Map.empty now st0))));
      [simpl in Hlen; lia | reflexivity]. }
  split; [exact E|].
  unfold canUndo. rewrite E.
  destruct (Z.ltb_spec 0 (historyIndex st + 1)), (Z.leb_spec 0 (historyIndex st));
    auto; lia.
Qed.

Lemma clearGrid_always_snapshots_witness :
  voxels (clearGrid 5 (clearGrid 4 initial)) = JS.Map.empty
  /\ historyIndex (clearGrid 5 (clearGrid 4 initial))
     = historyIndex (clearGrid 4 initial) + 1.
Proof.
  assert (Hinv : history_invariant (clearGrid 4 initial)).
  { apply saveToHistory_invariant. exact initial_invariant. }
  assert (H := clearGrid_always_snapshots 5 (clearGrid 4 initial) Hinv).
  split; [exact (proj1 H)|].
  apply (proj2 (proj2 (proj2 (proj2 H)))). vm_compute. reflexivity.
Defined.

Lemma Map_set_set {V : Type} (k : string) (v : V) (m : JS.Map.t V) :
  JS.Map.set k v (JS.Map.set k v m) = JS.Map.set k v m.
Proof.
  induction m as [|[k0 v0] r IH]; simpl.
  - now rewrite String.eqb_refl.
  - destruct (String.eqb k0 k) eqn:E; simpl; rewrite E; [reflexivity | now rewrite IH].
Qed.

Lemma saveToHistory_settings (V : VoxelMap) (now : Z) (st : State) :
  selectedColor (saveToHistory V now st) = selectedColor st
  /\ blockHeight (saveToHistory V now st) = blockHeight st.
Proof.
  unfold saveToHistory. destruct (MAX_HISTORY <? _); auto.
Qed.

(** The store [addVoxel] leaves: the key of the cell set to a voxel that
    carries the height and the colour of the state. *)
Lemma addVoxel_store_set (x y now : Z) (st : State) :
  exists v,
    voxels (addVoxel x y now st) = JS.Map.set (getKey x y) v (voxels st)
    /\ Voxel.height v = blockHeight st
    /\ Voxel.color v = selectedColor st.
Proof.
  unfold addVoxel. cbv zeta. rewrite saveToHistory_voxels. simpl.
  destruct (JS.Map.get (getKey x y) (voxels st)) as [old|].
  - destruct (String.eqb_spec (Voxel.color old) (selectedColor st));
      eexists; repeat split; auto.
  - eexists; repeat split.
Qed.

(** X9.  A second [addVoxel] on the same cell, with the height and colour
    unchanged, leaves the store as the first one made it, yet it takes a
    snapshot of its own: in a reachable state [canUndo] is then true and
    undo succeeds without any change to the store. *)
Theorem addVoxel_twice (x y t1 t2 : Z) (st : State) :
  reachable st ->
  let st1 := addVoxel x y t1 st in
  let st2 := addVoxel x y t2 st1 in
  voxels st2 = voxels st1
  /\ canUndo st2 = true
  /\ exists st3, undo st2 = Some st3 /\ voxels st3 = voxels st2.
Proof.
  intros Hr. cbv zeta.
  set (st1 := addVoxel x y t1 st).
  assert (Hr1 : reachable st1).
  { destruct Hr as [es Hes]. exists (es ++ [AddVoxel x y t1]).
    clear -Hes. revert Hes. generalize initial as s0.
    induction es as [|e es IH]; intros s0; simpl.
    - now intros [= ->].
    - destruct (step e s0); [apply IH | discriminate]. }
  assert (Hsame : voxels (addVoxel x y t2 st1) = voxels st1).
  { destruct (addVoxel_store_set x y t1 st) as (v & Hv & Hh & Hc). fold st1 in Hv.
    assert (Hset : selectedColor st1 = selectedColor st /\ blockHeight st1 = blockHeight st).
    { unfold st1, addVoxel. cbv zeta.
      match goal with
      | |- context [saveToHistory ?V ?n ?s] =>
          destruct (saveToHistory_settings V n s) as [-> ->]
      end.
      split; reflexivity. }
    destruct Hset as [Hc1 Hh1].
    unfold addVoxel at 1. cbv zeta. rewrite saveToHistory_voxels. simpl.
    rewrite Hv at 1. rewrite Map_get_set.
    rewrite Hc1, Hh1, Hc, String.eqb_refl, <- Hh.
    replace (Voxel.mk (Voxel.x v) (Voxel.y v) (Voxel.height v) (selectedColor st))
      with v by (rewrite <- Hc; now destruct v).
    rewrite Hv. apply Map_set_set. }
  split; [exact Hsame|].
  assert (Hne : history st1 <> []).
  { unfold st1. rewrite addVoxel_save.
    destruct (saveToHistory_last (voxels (addVoxel x y t1 st)) t1
                (setVoxels (voxels (addVoxel x y t1 st)) st)) as [older ->].
    now destruct older. }
  pose proof (reachable_well_formed st1 Hr1) as Hwf1.
  assert (Hpos : 0 <= historyIndex st1).
  { destruct Hwf1 as ((Hi & Hempty & _) & _).
    destruct (Z.eq_dec (historyIndex st1) (-1)) as [E1|E1]; [|lia].
    now apply Hempty in E1. }
  set (V := voxels (addVoxel x y t2 st1)).
  destruct (undo_after_save V t2 st1 Hwf1 Hpos) as (s2 & Hundo & Hvox & _ & _).
  unfold V in Hundo. rewrite <- addVoxel_save in Hundo.
  split.
  - unfold canUndo. rewrite addVoxel_save. fold V.
    destruct Hwf1 as (Hinv1 & _).
    assert (Hinv0 : history_invariant (setVoxels V st1)) by exact Hinv1.
    pose proof (appended_length V t2 _ Hinv0) as Hlen.
    destruct Hinv1 as (Hi & Hempty & Hmax).
    rewrite saveToHistory_historyIndex by (simpl; lia).
    apply Z.ltb_lt. unfold MAX_HISTORY in *. simpl in Hlen.
    destruct (Z.ltb_spec 50 (Z.of_nat (List.length (appended V t2 (setVoxels V st1)))));
      simpl; lia.
  - exists s2. split; [exact Hundo|]. rewrite Hvox. symmetry. exact Hsame.
Qed.

Lemma addVoxel_twice_witness :
  voxels (addVoxel 3 4 12 twoEdits) = voxels twoEdits
  /\ canUndo (addVoxel 3 4 12 twoEdits) = true.
Proof.
  assert (Hr : reachable (addVoxel 1 2 10 initial))
    by (exists [AddVoxel 1 2 10]; reflexivity).
  assert (H := addVoxel_twice 3 4 11 12 (addVoxel 1 2 10 initial) Hr).
  cbv zeta in H.
  exact (conj (proj1 H) (proj1 (proj2 H))).
Defined.

End Cells.

(** ** The painter's order *)

Section Painter.

Variables Math_sin Math_cos : float -> float.
Variable Number_toString : float -> string.

(** X10.  For a store whose voxels have [x] and [y] from 0 to 99 the
    voxels are painted by [x], then by [y].  Beyond that extent the key
    [y + x * 100] no longer does it: the cell (0, 150) is painted after the
    cell (1, 0); and in column 90071992547410, where the key passes 2^53,
    the cells of rows 1 and 0 get the same binary64 key and are painted in
    the order they were put in the store. *)
Theorem painter_order_within_extent :
  (forall voxels : VoxelMap,
      within_extent voxels ->
      StronglySorted painter_before (Isometric.sortedVoxels voxels))
  /\ ~ StronglySorted painter_before
        (Isometric.sortedVoxels
           [("0,150"%string, Voxel.mk 0 150 1 "#3B82F6");
            ("1,0"%string, Voxel.mk 1 0 1 "#3B82F6")])
  /\ Isometric.order (Voxel.mk farColumn 1 1 "#3B82F6")
     = Isometric.order (Voxel.mk farColumn 0 1 "#3B82F6")
  /\ Isometric.sortedVoxels
       [(useVoxelGrid.getKey farColumn 1, Voxel.mk farColumn 1 1 "#3B82F6");
        (useVoxelGrid.getKey farColumn 0, Voxel.mk farColumn 0 1 "#3B82F6")]
     = [Voxel.mk farColumn 1 1 "#3B82F6"; Voxel.mk farColumn 0 1 "#3B82F6"].
Proof.
  split; [|split; [|split]].
  - intros voxels Hext.
    apply (StronglySorted_weaken
             (fun a b => Isometric.order a <= Isometric.order b)).
    + intros a b Ha Hb Hab.
      destruct (within_extent_sorted voxels a Hext Ha) as (Ea & Hxa & Hya).
      destruct (within_extent_sorted voxels b Hext Hb) as (Eb & Hxb & Hyb).
      rewrite Ea, Eb in Hab. unfold painter_before. lia.
    + apply sortedVoxels_ascending.
  - intros H.
    assert (E : Isometric.sortedVoxels
                  [("0,150"%string, Voxel.mk 0 150 1 "#3B82F6");
                   ("1,0"%string, Voxel.mk 1 0 1 "#3B82F6")]
                = [Voxel.mk 1 0 1 "#3B82F6"; Voxel.mk 0 150 1 "#3B82F6"])
      by (vm_compute; reflexivity).
    rewrite E in H.
    inversion H as [|a l _ Hhd]; subst.
    inversion Hhd as [|b l' Hb _]; subst.
    unfold painter_before in Hb. simpl in Hb. lia.
  - vm_compute. reflexivity.
  - vm_compute. reflexivity.
Qed.

Lemma painter_order_within_extent_witness :
  within_extent paintedBack
  /\ StronglySorted painter_before (Isometric.sortedVoxels paintedBack).
Proof.
  assert (H : within_extent paintedBack).
  { unfold within_extent.
    change (Forall (fun v => 0 <= Voxel.x v < 100 /\ 0 <= Voxel.y v < 100)
              [Voxel.mk 3 4 1 Colors.electric_blue; Voxel.mk 1 2 1 Colors.electric_blue]).
    repeat constructor; simpl; lia. }
  exact (conj H (proj1 painter_order_within_extent paintedBack H)).
Defined.

(** X11.  The scene holds three faces for each voxel of the store: no
    face is left out, whatever stands in front of it. *)
Theorem three_faces_per_voxel (voxels : VoxelMap) (lightingAngle : float) :
  List.length (Isometric.sceneFaces Math_sin Math_cos Number_toString voxels lightingAngle)
  = (3 * List.length voxels)%nat.
Proof.
  unfold Isometric.sceneFaces.
  rewrite <- (length_map snd voxels).
  change (List.map snd voxels) with (JS.Map.values voxels).
  rewrite (Permutation_length (sortedVoxels_Permutation voxels)).
  induction (Isometric.sortedVoxels voxels) as [|v vs IH]; simpl; [reflexivity|].
  rewrite IH. lia.
Qed.

(** *** The order of painting does not show *)

Lemma sorted_unique (l1 l2 : list Voxel.t) :
  StronglySorted (fun a b => Isometric.order a < Isometric.order b) l1 ->
  StronglySorted (fun a b => Isometric.order a < Isometric.order b) l2 ->
  Permutation l1 l2 -> l1 = l2.
Proof.
  intros H1. revert l2. induction H1 as [|a r1 Hr1 IH Ha]; intros l2 H2 Hp.
  - now apply Permutation_nil in Hp.
  - destruct H2 as [|b r2 Hr2 Hb].
    + apply Permutation_sym, Permutation_nil in Hp. discriminate.
    + assert (E : a = b).
      { assert (Hina : In a (b :: r2)) by (apply (Permutation_in a Hp); now left).
        assert (Hinb : In b (a :: r1))
          by (apply (Permutation_in b (Permutation_sym Hp)); now left).
        destruct Hina as [->|Hina]; [reflexivity|].
        destruct Hinb as [->|Hinb]; [reflexivity|].
        rewrite Forall_forall in Ha, Hb.
        pose proof (Ha b Hinb). pose proof (Hb a Hina). lia. }
      subst b. f_equal. apply IH; [exact Hr2|].
      exact (Permutation_cons_inv Hp).
Qed.

Lemma ascending_strict (l : list Voxel.t) :
  ascending l -> NoDup (List.map Isometric.order l) ->
  StronglySorted (fun a b => Isometric.order a < Isometric.order b) l.
Proof.
  unfold ascending. induction 1 as [|a r Hr IH Ha]; intros Hnd; constructor.
  - apply IH. now inversion Hnd.
  - inversion Hnd as [|? ? Hnotin _]; subst.
    rewrite Forall_forall in Ha |- *. intros b Hb.
    pose proof (Ha b Hb) as Hle.
    assert (Isometric.order a <> Isometric.order b).
    { intros E. apply Hnotin. rewrite E. now apply in_map. }
    lia.
Qed.

Lemma sortedVoxels_unique (m1 m2 : VoxelMap) :
  Permutation (JS.Map.values m1) (JS.Map.values m2) ->
  NoDup (List.map Isometric.order (JS.Map.values m1)) ->
  Isometric.sortedVoxels m1 = Isometric.sortedVoxels m2.
Proof.
  intros Hp Hnd.
  assert (Hp12 : Permutation (Isometric.sortedVoxels m1) (Isometric.sortedVoxels m2)).
  { eapply Permutation_trans; [apply Permutation_sym, sortedVoxels_Permutation|].
    eapply Permutation_trans; [exact Hp | apply sortedVoxels_Permutation]. }
  assert (Hnd1 : NoDup (List.map Isometric.order (Isometric.sortedVoxels m1))).
  { eapply Permutation_NoDup; [|exact Hnd].
    apply Permutation_map, sortedVoxels_Permutation. }
  assert (Hnd2 : NoDup (List.map Isometric.order (Isometric.sortedVoxels m2))).
  { eapply Permutation_NoDup; [|exact Hnd1]. now apply Permutation_map. }
  apply sorted_unique; [| |exact Hp12];
    apply ascending_strict; auto using sortedVoxels_ascending.
Qed.

Lemma NoDup_map_finer {A B C : Type} (f : A -> B) (g : A -> C) (l : list A) :
  (forall a b, In a l -> In b l -> g a = g b -> f a = f b) ->
  NoDup (List.map f l) -> NoDup (List.map g l).
Proof.
  induction l as [|a r IH]; intros Hfg Hnd; simpl; [constructor|].
  simpl in Hnd. inversion Hnd as [|? ? Hnotin Hr]; subst.
  constructor.
  - intros Hin. apply in_map_iff in Hin. destruct Hin as (b & Hgb & Hb).
    apply Hnotin. rewrite <- (Hfg b a); [now apply in_map | now right | now left | exact Hgb].
  - apply IH; [|exact Hr]. intros x y Hx Hy. apply Hfg; now right.
Qed.

Lemma store_ok_orders (m : VoxelMap) :
  store_ok m -> within_extent m ->
  NoDup (List.map Isometric.order (JS.Map.values m)).
Proof.
  intros [Hnd Hk] Hext.
  assert (Hkeys : NoDup (List.map
                           (fun v => useVoxelGrid.getKey (Voxel.x v) (Voxel.y v))
                           (JS.Map.values m))).
  { unfold JS.Map.values. rewrite map_map.
    erewrite map_ext_in; [exact Hnd|].
    intros kv Hin. symmetry. exact (proj1 (Forall_forall _ _) Hk kv Hin). }
  refine (NoDup_map_finer _ _ _ _ Hkeys).
  intros a b Ha Hb E.
  unfold within_extent in Hext. rewrite Forall_forall in Hext.
  destruct (Hext a Ha) as [Hxa Hya]. destruct (Hext b Hb) as [Hxb Hyb].
  rewrite (order_exact a Hxa Hya), (order_exact b Hxb Hyb) in E.
  assert (Voxel.x a = Voxel.x b) by lia.
  assert (Voxel.y a = Voxel.y b) by lia.
  congruence.
Qed.

(** X12.  The picture does not depend on the order in which the cells were
    painted: two well-formed stores within the extent, [x] and [y] from 0
    to 99, that hold the same voxels give the same document. *)
Theorem scene_independent_of_painting_order (m1 m2 : VoxelMap) (lightingAngle : float) :
  store_ok m1 -> within_extent m1 ->
  Permutation (JS.Map.values m1) (JS.Map.values m2) ->
  Isometric.generateSceneSVG Math_sin Math_cos Number_toString m1 lightingAngle
  = Isometric.generateSceneSVG Math_sin Math_cos Number_toString m2 lightingAngle.
Proof.
  intros Hok Hext Hp.
  pose proof (sortedVoxels_unique m1 m2 Hp (store_ok_orders m1 Hok Hext)) as Hs.
  unfold Isometric.generateSceneSVG, Isometric.sceneFaces, Isometric.sceneBounds.
  rewrite Hs.
  replace (JS.Map.size m2) with (JS.Map.size m1); [reflexivity|].
  unfold JS.Map.size. f_equal.
  rewrite <- (length_map snd m1), <- (length_map snd m2).
  exact (Permutation_length Hp).
Qed.

End Painter.

Lemma scene_independent_of_painting_order_witness :
  let sin := fun _ : float => 0.5%float in
  let cos := fun _ : float => 0.75%float in
  let str := fun _ : float => "0"%string in
  paintedForth <> paintedBack
  /\ Isometric.generateSceneSVG sin cos str paintedForth 45%float
     = Isometric.generateSceneSVG sin cos str paintedBack 45%float.
Proof.
  cbv zeta. split; [vm_compute; discriminate|].
  apply scene_independent_of_painting_order.
  - apply (proj1 (proj2 (proj2 (reachable_well_formed twoEdits twoEdits_reachable)))).
  - unfold within_extent.
    change (Forall (fun v => 0 <= Voxel.x v < 100 /\ 0 <= Voxel.y v < 100)
              [Voxel.mk 1 2 1 Colors.electric_blue; Voxel.mk 3 4 1 Colors.electric_blue]).
    repeat constructor; simpl; lia.
  - vm_compute. apply perm_swap.
Defined.

(** ** Colours *)

Section ColourMath.

(** The channels for every byte and every integer amount from -255 to 255,
    computed. *)
Lemma channel_table :
  List.map (fun v => List.map (fun a => Colors.channel v (JS.of_Z a)) amountRange) byteRange
  = List.map (fun v => List.map (fun a => JS.of_Z (clamp255 (v + a))) amountRange) byteRange.
Proof.
  vm_compute. reflexivity.
Qed.

Lemma ToInt32_byte_table :
  List.map (fun k => JS.ToInt32 (JS.of_Z k)) byteRange = byteRange.
Proof.
  vm_compute. reflexivity.
Qed.

Lemma byteRange_In (v : Z) : 0 <= v <= 255 -> In v byteRange.
Proof.
  intros Hv. unfold byteRange. replace v with (Z.of_nat (Z.to_nat v)) by lia.
  apply in_map, in_seq. lia.
Qed.

Lemma amountRange_In (a : Z) : -255 <= a <= 255 -> In a amountRange.
Proof.
  intros Ha. unfold amountRange.
  replace a with (Z.of_nat (Z.to_nat (a + 255)) - 255) by lia.
  apply (in_map (fun i => Z.of_nat i - 255)), in_seq. lia.
Qed.

Lemma ToInt32_byte (k : Z) : 0 <= k <= 255 -> JS.ToInt32 (JS.of_Z k) = k.
Proof.
  intros Hk. pose proof ToInt32_byte_table as T.
  rewrite <- (map_id byteRange) in T at 2.
  exact (proj1 (@map_ext_in_iff _ _ _ _ _) T k (byteRange_In k Hk)).
Qed.

Lemma channel_clamp_float (v a : Z) :
  0 <= v <= 255 -> -255 <= a <= 255 ->
  Colors.channel v (JS.of_Z a) = JS.of_Z (clamp255 (v + a)).
Proof.
  intros Hv Ha.
  pose proof (proj1 (@map_ext_in_iff _ _ _ _ _) channel_table v (byteRange_In v Hv)) as T.
  exact (proj1 (@map_ext_in_iff _ _ _ _ _) T a (amountRange_In a Ha)).
Qed.

Lemma channel_clamp (v a : Z) :
  0 <= v <= 255 -> -255 <= a <= 255 ->
  JS.ToInt32 (Colors.channel v (JS.of_Z a)) = clamp255 (v + a).
Proof.
  intros Hv Ha. rewrite channel_clamp_float by assumption.
  apply ToInt32_byte. unfold clamp255. lia.
Qed.

(** *** Hexadecimal digits *)

Ltac each_ascii c := destruct c as [[] [] [] [] [] [] [] []].

Lemma hex_value_digit (c : ascii) (d : Z) :
  JS.hex_value c = Some d ->
  0 <= d <= 15 /\ JS.is_space c = false /\ Ascii.eqb c "#" = false.
Proof.
  each_ascii c; vm_compute; intros H; try discriminate H;
    injection H as <-; repeat split; discriminate.
Qed.

Lemma strip_hash_other (c : ascii) (rest : string) :
  Ascii.eqb c "#" = false ->
  match String c rest with String "#" r => r | _ => String c rest end = String c rest.
Proof.
  each_ascii c; intros H; try reflexivity. discriminate H.
Qed.

Lemma parseInt16_digit_first (c : ascii) (d : Z) (rest : string) :
  JS.hex_value c = Some d ->
  JS.parseInt16 (String c rest)
  = match JS.hex_prefix (JS.strip_0x (String c rest)) None with
    | Some v => Some v
    | None => None
    end.
Proof.
  each_ascii c; intros H; try reflexivity; vm_compute in H; discriminate H.
Qed.

Lemma strip_0x_digits (c1 c2 : ascii) (d2 : Z) (rest : string) :
  JS.hex_value c2 = Some d2 ->
  JS.strip_0x (String c1 (String c2 rest)) = String c1 (String c2 rest).
Proof.
  intros H. each_ascii c1; try reflexivity.
  each_ascii c2; try reflexivity; vm_compute in H; discriminate H.
Qed.

Lemma hex_prefix_digit (c : ascii) (d : Z) (rest : string) (acc : option Z) :
  JS.hex_value c = Some d ->
  JS.hex_prefix (String c rest) acc
  = JS.hex_prefix rest (Some (16 * match acc with Some v => v | None => 0 end + d)).
Proof.
  intros H. simpl. now rewrite H.
Qed.

Lemma six_parse (c1 c2 c3 c4 c5 c6 : ascii) (d1 d2 d3 d4 d5 d6 : Z) :
  JS.hex_value c1 = Some d1 -> JS.hex_value c2 = Some d2 ->
  JS.hex_value c3 = Some d3 -> JS.hex_value c4 = Some d4 ->
  JS.hex_value c5 = Some d5 -> JS.hex_value c6 = Some d6 ->
  JS.remove_first "#" (six c1 c2 c3 c4 c5 c6) = six c1 c2 c3 c4 c5 c6
  /\ JS.parseInt16 (six c1 c2 c3 c4 c5 c6)
     = Some (65536 * (16 * d1 + d2) + 256 * (16 * d3 + d4) + (16 * d5 + d6)).
Proof.
  intros H1 H2 H3 H4 H5 H6.
  destruct (hex_value_digit _ _ H1) as (_ & _ & E1).
  destruct (hex_value_digit _ _ H2) as (_ & _ & E2).
  destruct (hex_value_digit _ _ H3) as (_ & _ & E3).
  destruct (hex_value_digit _ _ H4) as (_ & _ & E4).
  destruct (hex_value_digit _ _ H5) as (_ & _ & E5).
  destruct (hex_value_digit _ _ H6) as (_ & _ & E6).
  split.
  - unfold six. simpl. now rewrite E1, E2, E3, E4, E5, E6.
  - unfold six. rewrite (parseInt16_digit_first c1 d1 _ H1).
    rewrite (strip_0x_digits c1 c2 d2 _ H2).
    rewrite (hex_prefix_digit c1 d1 _ _ H1), (hex_prefix_digit c2 d2 _ _ H2),
      (hex_prefix_digit c3 d3 _ _ H3), (hex_prefix_digit c4 d4 _ _ H4),
      (hex_prefix_digit c5 d5 _ _ H5), (hex_prefix_digit c6 d6 _ _ H6).
    cbv beta iota delta [JS.hex_prefix]. f_equal. lia.
Qed.

Lemma hexToRgb_inv (hex : string) (r g b : Z) :
  Colors.hexToRgb hex = Some (r, g, b) ->
  exists c1 c2 c3 c4 c5 c6 d1 d2 d3 d4 d5 d6,
    (hex = six c1 c2 c3 c4 c5 c6 \/ hex = String "#" (six c1 c2 c3 c4 c5 c6))
    /\ JS.hex_value c1 = Some d1 /\ JS.hex_value c2 = Some d2
    /\ JS.hex_value c3 = Some d3 /\ JS.hex_value c4 = Some d4
    /\ JS.hex_value c5 = Some d5 /\ JS.hex_value c6 = Some d6
    /\ r = 16 * d1 + d2 /\ g = 16 * d3 + d4 /\ b = 16 * d5 + d6.
Proof.
  unfold Colors.hexToRgb. intros H.
  assert (Hbody : exists body,
             (hex = body \/ hex = String "#" body)
             /\ match hex with String "#" r => r | _ => hex end = body).
  { destruct hex as [|c0 rest]; [exists EmptyString; auto|].
    destruct (Ascii.eqb c0 "#") eqn:E.
    - apply Ascii.eqb_eq in E. subst c0. exists rest. auto.
    - exists (String c0 rest). split; [now left | now apply strip_hash_other]. }
  destruct Hbody as (body & Hshape & Hb). cbv zeta in H. rewrite Hb in H.
  destruct body as [|c1 [|c2 [|c3 [|c4 [|c5 [|c6 [|c7 rest]]]]]]]; try discriminate H.
  destruct (JS.hex_value c1) as [d1|] eqn:H1; [|discriminate H].
  destruct (JS.hex_value c2) as [d2|] eqn:H2; [|discriminate H].
  destruct (JS.hex_value c3) as [d3|] eqn:H3; [|discriminate H].
  destruct (JS.hex_value c4) as [d4|] eqn:H4; [|discriminate H].
  destruct (JS.hex_value c5) as [d5|] eqn:H5; [|discriminate H].
  destruct (JS.hex_value c6) as [d6|] eqn:H6; [|discriminate H].
  injection H as <- <- <-.
  exists c1, c2, c3, c4, c5, c6, d1, d2, d3, d4, d5, d6.
  repeat split; auto.
Qed.

Lemma hexToRgb_parse (hex : string) (r g b : Z) :
  Colors.hexToRgb hex = Some (r, g, b) ->
  (0 <= r <= 255 /\ 0 <= g <= 255 /\ 0 <= b <= 255)
  /\ JS.parseInt16 (JS.remove_first "#" hex) = Some (65536 * r + 256 * g + b).
Proof.
  intros H.
  destruct (hexToRgb_inv hex r g b H)
    as (c1 & c2 & c3 & c4 & c5 & c6 & d1 & d2 & d3 & d4 & d5 & d6
        & Hshape & H1 & H2 & H3 & H4 & H5 & H6 & -> & -> & ->).
  destruct (hex_value_digit _ _ H1) as (B1 & _).
  destruct (hex_value_digit _ _ H2) as (B2 & _).
  destruct (hex_value_digit _ _ H3) as (B3 & _).
  destruct (hex_value_digit _ _ H4) as (B4 & _).
  destruct (hex_value_digit _ _ H5) as (B5 & _).
  destruct (hex_value_digit _ _ H6) as (B6 & _).
  split; [lia|].
  destruct (six_parse c1 c2 c3 c4 c5 c6 d1 d2 d3 d4 d5 d6 H1 H2 H3 H4 H5 H6)
    as [Hrm Hparse].
  destruct Hshape as [-> | ->].
  - now rewrite Hrm.
  - simpl JS.remove_first. exact Hparse.
Qed.

(** X13.  A colour that [hexToRgb] accepts has its three channels between
    0 and 255, and [adjustBrightness] reads the same colour out of it: the
    number it parses is [r * 65536 + g * 256 + b]. *)
Theorem hexToRgb_channels (hex : string) (r g b : Z) :
  Colors.hexToRgb hex = Some (r, g, b) ->
  (0 <= r <= 255 /\ 0 <= g <= 255 /\ 0 <= b <= 255)
  /\ JS.parseInt16 (JS.remove_first "#" hex) = Some (65536 * r + 256 * g + b).
Proof.
  intros H.
  destruct (hexToRgb_parse hex r g b H) as [Hbytes Hparse].
  split; [exact Hbytes | exact Hparse].
Qed.

Lemma hexToRgb_channels_witness :
  (0 <= 59 <= 255 /\ 0 <= 130 <= 255 /\ 0 <= 246 <= 255)
  /\ JS.parseInt16 (JS.remove_first "#" "#3B82F6") = Some (65536 * 59 + 256 * 130 + 246).
Proof.
  apply (hexToRgb_channels "#3B82F6" 59 130 246). reflexivity.
Defined.

(** *** Channels in and out of a 24-bit number *)

Lemma wrap32_small (z : Z) : 0 <= z < 2147483648 -> JS.wrap32 z = z.
Proof.
  intros Hz. unfold JS.wrap32. rewrite Z.mod_small by lia.
  destruct (Z.leb_spec 2147483648 z); [lia | reflexivity].
Qed.

Lemma land_255 (z : Z) : Z.land z 255 = z mod 256.
Proof.
  change 255 with (Z.ones 8). now rewrite Z.land_ones by lia.
Qed.

Lemma channels_of_number (r g b : Z) :
  0 <= r <= 255 -> 0 <= g <= 255 -> 0 <= b <= 255 ->
  let num := JS.ToInt32_parsed (Some (65536 * r + 256 * g + b)) in
  JS.band (JS.sar num 16) 255 = r
  /\ JS.band (JS.sar num 8) 255 = g
  /\ JS.band num 255 = b.
Proof.
  intros Hr Hg Hb. cbv zeta. unfold JS.ToInt32_parsed.
  rewrite wrap32_small by lia.
  unfold JS.band, JS.sar.
  change (16 mod 32) with 16. change (8 mod 32) with 8.
  rewrite !land_255, !Z.shiftr_div_pow2 by lia.
  change (2 ^ 16) with 65536. change (2 ^ 8) with 256.
  repeat split; Z.div_mod_to_equations; lia.
Qed.

Lemma lor_disjoint (hi lo n : Z) :
  0 <= n -> 0 <= lo < 2 ^ n -> Z.lor (hi * 2 ^ n) lo = hi * 2 ^ n + lo.
Proof.
  intros Hn Hlo.
  rewrite <- (Z.add_lor_land (hi * 2 ^ n) lo).
  assert (E : Z.land (hi * 2 ^ n) lo = 0).
  { apply Z.bits_inj'. intros i Hi.
    rewrite Z.land_spec, Z.bits_0, <- Z.shiftl_mul_pow2 by lia.
    destruct (Z.lt_ge_cases i n) as [Hlow|Hhigh].
    - now rewrite Z.shiftl_spec_low.
    - destruct (Z.eq_dec lo 0) as [->|Hne].
      + rewrite Z.bits_0. apply andb_false_r.
      + assert (Hlog : Z.log2 lo < i).
        { apply Z.lt_le_trans with n; [apply Z.log2_lt_pow2; lia | lia]. }
        rewrite (Z.bits_above_log2 lo i) by lia.
        apply andb_false_r. }
  rewrite E. lia.
Qed.

Lemma number_of_channels (r g b : Z) :
  0 <= r <= 255 -> 0 <= g <= 255 -> 0 <= b <= 255 ->
  JS.bor (JS.bor (JS.shl r 16) (JS.shl g 8)) b = 65536 * r + 256 * g + b.
Proof.
  intros Hr Hg Hb. unfold JS.bor, JS.shl.
  change (16 mod 32) with 16. change (8 mod 32) with 8.
  rewrite !Z.shiftl_mul_pow2 by lia.
  change (2 ^ 16) with 65536. change (2 ^ 8) with 256.
  rewrite !wrap32_small by lia.
  replace (r * 65536) with ((r * 256) * 2 ^ 8) by lia.
  replace (g * 256) with (g * 2 ^ 8) by lia.
  rewrite <- Z.shiftl_mul_pow2, <- (Z.shiftl_mul_pow2 g) by lia.
  rewrite <- Z.shiftl_lor, !Z.shiftl_mul_pow2 by lia.
  replace (r * 256) with (r * 2 ^ 8) by lia.
  rewrite (lor_disjoint r g 8) by lia.
  rewrite (lor_disjoint (r * 2 ^ 8 + g) b 8) by lia.
  lia.
Qed.

(** X14.  For a colour that [hexToRgb] accepts and an integer amount from
    -255 to 255, [adjustBrightness] adds the amount to each of the three
    channels, cuts each sum to 0..255 and writes the 24-bit number they make
    as six lower-case hexadecimal digits after a [#]. *)
Theorem adjustBrightness_integer (hex : string) (r g b amount : Z) :
  Colors.hexToRgb hex = Some (r, g, b) ->
  -255 <= amount <= 255 ->
  Colors.adjustBrightness hex (JS.of_Z amount)
  = "#" +++ JS.padStart 6 "0"
      (JS.toString16
         (65536 * clamp255 (r + amount) + 256 * clamp255 (g + amount)
          + clamp255 (b + amount))).
Proof.
  intros Hrgb Ha.
  destruct (hexToRgb_parse hex r g b Hrgb) as ((Hr & Hg & Hb) & Hparse).
  unfold Colors.adjustBrightness. rewrite Hparse.
  destruct (channels_of_number r g b Hr Hg Hb) as (Er & Eg & Eb).
  cbv zeta in Er, Eg, Eb |- *.
  rewrite Er, Eg, Eb.
  rewrite !channel_clamp by assumption.
  rewrite number_of_channels by (unfold clamp255; lia).
  reflexivity.
Qed.

Lemma adjustBrightness_integer_witness :
  Colors.adjustBrightness "#3B82F6" (JS.of_Z (-100))
  = "#" +++ JS.padStart 6 "0"
      (JS.toString16
         (65536 * clamp255 (59 + -100) + 256 * clamp255 (130 + -100)
          + clamp255 (246 + -100))).
Proof.
  apply (adjustBrightness_integer "#3B82F6" 59 130 246 (-100)).
  - reflexivity.
  - lia.
Defined.

End ColourMath.

(** ** The ranges the user interface keeps *)

Section Interface.

Import useVoxelGrid.

Lemma valid_store_set (k : string) (v : Voxel.t) (m : VoxelMap) :
  valid_store m -> valid_voxel v -> valid_store (JS.Map.set k v m).
Proof.
  unfold valid_store, JS.Map.values. rewrite !Forall_forall.
  intros Hm Hv w Hw. apply in_map_iff in Hw. destruct Hw as ([k' w'] & <- & Hin).
  destruct (Map_set_In _ _ _ _ Hin) as [[= -> ->]|Hold]; [exact Hv|].
  apply Hm. now apply (in_map snd) in Hold.
Qed.

Lemma valid_store_delete (k : string) (m : VoxelMap) :
  valid_store m -> valid_store (JS.Map.delete k m).
Proof.
  unfold valid_store, JS.Map.values. rewrite !Forall_forall.
  intros Hm w Hw. apply in_map_iff in Hw. destruct Hw as (kv & <- & Hin).
  apply Hm. apply in_map. eapply Map_delete_incl, Hin.
Qed.

Lemma valid_store_get (k : string) (v : Voxel.t) (m : VoxelMap) :
  valid_store m -> JS.Map.get k m = Some v -> valid_voxel v.
Proof.
  unfold valid_store, JS.Map.values. rewrite Forall_forall.
  intros Hm Hget. apply Hm. apply Map_get_In in Hget.
  now apply (in_map snd) in Hget.
Qed.

Lemma valid_store_addVoxel (x y now : Z) (st : State) :
  validCoordinate x y -> validHeight (blockHeight st) -> validColor (selectedColor st) ->
  valid_store (voxels st) -> valid_store (voxels (addVoxel x y now st)).
Proof.
  intros Hxy Hh Hc Hm. unfold addVoxel. cbv zeta. rewrite saveToHistory_voxels. simpl.
  destruct (JS.Map.get (getKey x y) (voxels st)) as [old|] eqn:Hget.
  - destruct (valid_store_get _ _ _ Hm Hget) as (Hoxy & _ & Hoc).
    destruct (String.eqb (Voxel.color old) (selectedColor st)).
    + apply valid_store_set; [exact Hm|]. exact (conj Hoxy (conj Hh Hoc)).
    + apply valid_store_set; [exact Hm|]. exact (conj Hxy (conj Hh Hc)).
  - apply valid_store_set; [exact Hm|]. exact (conj Hxy (conj Hh Hc)).
Qed.

Lemma presetColor_valid (num : Z) (c : string) :
  App.presetColor num = Some c -> validColor c.
Proof.
  unfold App.presetColor.
  destruct ((1 <=? num) && (num <=? 6)) eqn:E; [|discriminate].
  intros H. apply index_In in H.
  repeat (destruct H as [<-|H]; [unfold validColor; vm_compute; discriminate|]).
  contradiction.
Qed.

Lemma step_ui_state (e : Event) (st st' : State) :
  ui_state st -> ui_event e st -> step e st = Some st' -> ui_state st'.
Proof.
  intros (Hh & Hc & Hs) He.
  destruct e as [x y now|x y now|now| | |c|h|a]; simpl in He |- *.
  - intros [= <-]. rewrite addVoxel_save.
    destruct (saveToHistory_settings (voxels (addVoxel x y now st)) now
                (setVoxels (voxels (addVoxel x y now st)) st)) as [Ec Eh].
    split; [now rewrite Eh|]. split; [now rewrite Ec|].
    apply all_stores_save; [exact Hs|].
    apply valid_store_addVoxel; auto. apply Hs.
  - intros [= <-]. unfold removeVoxel.
    destruct (JS.Map.has _ _); [|exact (conj Hh (conj Hc Hs))].
    match goal with
    | |- context [saveToHistory ?V ?n ?s] =>
        destruct (saveToHistory_settings V n s) as [Ec Eh]
    end.
    split; [now rewrite Eh|]. split; [now rewrite Ec|].
    apply all_stores_save; [exact Hs|]. apply valid_store_delete, Hs.
  - intros [= <-]. unfold clearGrid. cbv zeta.
    match goal with
    | |- context [saveToHistory ?V ?n ?s] =>
        destruct (saveToHistory_settings V n s) as [Ec Eh]
    end.
    split; [now rewrite Eh|]. split; [now rewrite Ec|].
    apply all_stores_save; [exact Hs | constructor].
  - intros Hu. split; [|split].
    + unfold undo in Hu. destruct (0 <? historyIndex st);
        [destruct (JS.index _ _); [|discriminate]|]; injection Hu as <-; exact Hh.
    + unfold undo in Hu. destruct (0 <? historyIndex st);
        [destruct (JS.index _ _); [|discriminate]|]; injection Hu as <-; exact Hc.
    + exact (all_stores_undo _ st st' Hs Hu).
  - intros Hu. split; [|split].
    + unfold redo in Hu. destruct (historyIndex st <? _);
        [destruct (JS.index _ _); [|discriminate]|]; injection Hu as <-; exact Hh.
    + unfold redo in Hu. destruct (historyIndex st <? _);
        [destruct (JS.index _ _); [|discriminate]|]; injection Hu as <-; exact Hc.
    + exact (all_stores_redo _ st st' Hs Hu).
  - intros [= <-]. split; [exact Hh|]. split; [|exact Hs].
    simpl. destruct He as [Hv|[num Hn]]; [exact Hv | exact (presetColor_valid num c Hn)].
  - intros [= <-]. split; [|split; [exact Hc | exact Hs]].
    simpl. unfold validHeight, App.heightUp, App.heightDown in *.
    destruct He as [Hv|[->| ->]]; lia.
  - intros [= <-]. exact (conj Hh (conj Hc Hs)).
Qed.

Lemma initial_ui_state : ui_state initial.
Proof.
  split; [unfold validHeight; simpl; lia|].
  split; [unfold validColor; vm_compute; discriminate|].
  split; constructor.
Qed.

(** X15.  Driven by the events the user interface sends (cells of the
    20 x 20 grid, heights from the slider or the H keys, colours from the
    palette, the digit keys or the colour input), the hook never holds
    anything out of range: after any such run the height is within 1 to 10,
    the colour is one [hexToRgb] accepts, and every voxel of the store and
    of every snapshot has its coordinates within 0 to 19, its height within
    1 to 10 and a well-formed colour. *)
Theorem ui_runs_keep_ranges (es : list Event) (st : State) :
  ui_run es initial -> run es initial = Some st ->
  validHeight (blockHeight st)
  /\ validColor (selectedColor st)
  /\ (forall x y v, getVoxel x y st = Some v -> valid_voxel v)
  /\ (forall h v, In h (history st) ->
                  In v (JS.Map.values (HistoryState.voxels h)) -> valid_voxel v).
Proof.
  intros Hui Hrun.
  assert (Hst : ui_state st).
  { revert Hui Hrun. generalize initial_ui_state. generalize initial as s0.
    induction es as [|e es IH]; intros s0 Hs0 Hui Hrun; simpl in *.
    - now injection Hrun as <-.
    - destruct Hui as [He Hrest].
      destruct (step e s0) as [s1|] eqn:E; [|discriminate].
      exact (IH s1 (step_ui_state e s0 s1 Hs0 He E) Hrest Hrun). }
  destruct Hst as (Hh & Hc & Hv & Hhist).
  split; [exact Hh|]. split; [exact Hc|]. split.
  - intros x y v Hget. exact (valid_store_get _ _ _ Hv Hget).
  - intros h v Hin Hvin.
    pose proof (proj1 (Forall_forall _ _) Hhist h Hin) as Hh0.
    exact (proj1 (Forall_forall _ _) Hh0 v Hvin).
Qed.

Lemma ui_runs_keep_ranges_witness :
  let es := [SetBlockHeight 10; SetBlockHeight (App.heightUp 10);
             SetSelectedColor "#10B981"; AddVoxel 19 0 1; Undo] in
  exists st,
    run es initial = Some st
    /\ validHeight (blockHeight st)
    /\ validColor (selectedColor st).
Proof.
  cbv zeta. eexists. split; [reflexivity|].
  match goal with
  | |- validHeight (blockHeight ?s) /\ _ =>
      assert (H := ui_runs_keep_ranges
                     [SetBlockHeight 10; SetBlockHeight (App.heightUp 10);
                      SetSelectedColor "#10B981"; AddVoxel 19 0 1; Undo] s)
  end.
  assert (Hui : ui_run [SetBlockHeight 10; SetBlockHeight (App.heightUp 10);
                        SetSelectedColor "#10B981"; AddVoxel 19 0 1; Undo] initial).
  { simpl. unfold validHeight, validCoordinate, validColor.
    repeat split; try lia; auto.
    left. vm_compute. discriminate. }
  destruct (H Hui eq_refl) as (H1 & H2 & _).
  exact (conj H1 H2).
Defined.

End Interface.

(** ** The grid's pointer handlers *)

Section Pointer.

Import Grid.

(** X16.  While no drag is on, moving the pointer or the finger over the
    grid makes no call at all and starts no drag; and a mouse-up or a
    touch-end always ends the drag.  So after the button is released,
    hovering cells edits nothing. *)
Theorem hover_never_edits (es : list Event) (ui : State) :
  isDragging ui = false -> Forall is_move es ->
  fst (run es ui) = []
  /\ isDragging (snd (run es ui)) = false
  /\ isDragging (snd (handle MouseUp (snd (run es ui)))) = false
  /\ (forall ui', isDragging (snd (handle MouseUp ui')) = false
                  /\ isDragging (snd (handle TouchEnd ui')) = false).
Proof.
  intros Hd Hes.
  assert (H : fst (run es ui) = [] /\ isDragging (snd (run es ui)) = false).
  { revert ui Hd. induction Hes as [|e es He _ IH]; intros ui Hd; [auto|].
    simpl run.
    assert (Hstep : fst (handle e ui) = [] /\ isDragging (snd (handle e ui)) = false).
    { destruct e; try contradiction; simpl;
        unfold handleMouseEnter, handleMouseLeave, handleTouchMove;
        rewrite Hd; auto. }
    destruct (handle e ui) as [calls ui1]. simpl in Hstep. destruct Hstep as [-> Hd1].
    specialize (IH ui1 Hd1).
    destruct (run es ui1) as [more ui2]. simpl in IH |- *. exact IH. }
  destruct H as [H1 H2]. repeat split; auto.
Qed.

Lemma hover_never_edits_witness :
  fst (run [MouseEnter 1 1; MouseLeave; TouchMove (Some (2, 2)); MouseEnter 3 3]
          (snd (run [MouseDown 0 0 (mkMouse false 0); MouseUp] initial))) = [].
Proof.
  apply (hover_never_edits
           [MouseEnter 1 1; MouseLeave; TouchMove (Some (2, 2)); MouseEnter 3 3]).
  - reflexivity.
  - repeat constructor.
Defined.

Lemma run_enters (mode : DragMode) (cells : list (Z * Z)) (ui : State) :
  isDragging ui = true -> dragMode ui = Some mode ->
  fst (run (List.map (fun c => MouseEnter (fst c) (snd c)) cells) ui)
  = List.map (fun c => dragCall mode (fst c) (snd c)) cells
  /\ isDragging (snd (run (List.map (fun c => MouseEnter (fst c) (snd c)) cells) ui)) = true
  /\ dragMode (snd (run (List.map (fun c => MouseEnter (fst c) (snd c)) cells) ui))
     = Some mode.
Proof.
  revert ui. induction cells as [|c cells IH]; intros ui Hd Hm; [auto|].
  simpl List.map. simpl run. unfold handleMouseEnter. rewrite Hd, Hm.
  specialize (IH (mkState (Some (fst c, snd c)) true (Some mode)) eq_refl eq_refl).
  destruct (run _ _) as [more ui2]. simpl in IH |- *.
  destruct IH as (-> & H2 & H3). auto.
Qed.

(** X17.  A drag paints every cell it enters with the mode chosen when the
    button went down: mouse-down on a cell, then the pointer entering other
    cells, calls for the first cell and for each entered cell in order,
    [onCellRightClick] if shift or the right button was down and
    [onCellClick] otherwise; the drag is over after mouse-up.  A plain
    click, which is mouse-down, mouse-up and click on one cell, makes its
    call twice. *)
Theorem drag_paints_entered_cells (x y : Z) (event : MouseEvent)
    (cells : list (Z * Z)) (ui : State) :
  let mode := if removes event then ModeRemove else ModeAdd in
  let drag := MouseDown x y event
              :: List.map (fun c => MouseEnter (fst c) (snd c)) cells ++ [MouseUp] in
  fst (run drag ui) = List.map (fun c => dragCall mode (fst c) (snd c)) ((x, y) :: cells)
  /\ isDragging (snd (run drag ui)) = false
  /\ dragMode (snd (run drag ui)) = None
  /\ fst (run [MouseDown x y event; MouseUp; Click x y event] ui)
     = [dragCall mode x y; dragCall mode x y].
Proof.
  cbv zeta.
  assert (Hlast : forall es ui0,
             run (es ++ [MouseUp]) ui0
             = (fst (run es ui0),
                mkState (hoveredCell (snd (run es ui0))) false None)).
  { induction es as [|e es IH]; intros ui0; [reflexivity|].
    simpl. destruct (handle e ui0) as [calls ui1]. rewrite IH.
    destruct (run es ui1) as [more ui2]. reflexivity. }
  set (mode := if removes event then ModeRemove else ModeAdd).
  assert (Hdown : handleMouseDown x y event ui
                  = ([dragCall mode x y], mkState (hoveredCell ui) true (Some mode))).
  { unfold handleMouseDown, mode. now destruct (removes event). }
  simpl run at 1 2 3. rewrite Hdown, Hlast.
  destruct (run_enters mode cells (mkState (hoveredCell ui) true (Some mode))
              eq_refl eq_refl) as (Hc & _ & _).
  destruct (run _ _) as [more ui2] eqn:E. simpl in Hc |- *.
  subst more. repeat split.
  unfold handleCellClick, handleMouseDown, handleMouseUp, mode.
  destruct (removes event); reflexivity.
Qed.

End Pointer.

(** ** The exported text *)

Section ExportedText.

Lemma ink_collapse (inrun : bool) (s : string) :
  Text.ink (Text.collapse inrun s) = Text.ink s.
Proof.
  revert inrun. induction s as [|c r IH]; intros inrun; simpl; [reflexivity|].
  destruct (JS.is_space c) eqn:E.
  - destruct inrun; simpl; apply IH.
  - simpl. rewrite E. now rewrite IH.
Qed.

Lemma ink_skip_spaces (s : string) : Text.ink (JS.skip_spaces s) = Text.ink s.
Proof.
  induction s as [|c r IH]; simpl; [reflexivity|].
  destruct (JS.is_space c) eqn:E; [exact IH|]. simpl. now rewrite E.
Qed.

(** A gap starts with white space and what follows it is the text found. *)
Lemma gap_Some (s t : string) :
  Text.gap s = Some t ->
  exists c r, s = String c r /\ JS.is_space c = true /\ t = JS.skip_spaces r.
Proof.
  destruct s as [|c r]; simpl; [discriminate|].
  destruct (JS.is_space c) eqn:E; [|discriminate].
  destruct (JS.skip_spaces r) as [|c' t'] eqn:Er; [discriminate|].
  destruct (Ascii.eqb_spec c' "<") as [->|Hne].
  - intros [= <-]. exists c, r. auto.
  - destruct c' as [[] [] [] [] [] [] [] []]; try discriminate.
    now contradiction Hne.
Qed.

Lemma ink_gap (s t : string) : Text.gap s = Some t -> Text.ink t = Text.ink s.
Proof.
  intros H. destruct (gap_Some s t H) as (c & r & -> & Hc & ->).
  simpl. rewrite Hc. apply ink_skip_spaces.
Qed.

Lemma ink_squeezeTags (s : string) : Text.ink (Text.squeezeTags s) = Text.ink s.
Proof.
  induction s as [|c r IH]; simpl; [reflexivity|].
  destruct (Ascii.eqb_spec c ">") as [->|Hne].
  - destruct (Text.gap (Text.squeezeTags r)) as [t|] eqn:G; simpl.
    + now rewrite (ink_gap _ _ G), IH.
    + now rewrite IH.
  - simpl. now rewrite IH.
Qed.

Lemma ink_trimEnd (s : string) : Text.ink (Text.trimEnd s) = Text.ink s.
Proof.
  induction s as [|c r IH]; simpl; [reflexivity|].
  destruct (Text.trimEnd r) as [|c' r'] eqn:E.
  - simpl in IH. destruct (JS.is_space c) eqn:Ec; simpl; rewrite ?Ec; now rewrite <- IH.
  - cbn [Text.ink] in IH |- *. now rewrite <- IH.
Qed.

(** X18.  [optimizeSVG] touches white space only: the characters of the
    result that are not white space are those of the text it was given, in
    the same order. *)
Theorem optimizeSVG_keeps_the_ink (svg : string) :
  Text.ink (Isometric.optimizeSVG svg) = Text.ink svg.
Proof.
  unfold Isometric.optimizeSVG, Text.trim, Text.replaceSpaces.
  now rewrite ink_trimEnd, ink_skip_spaces, ink_squeezeTags, ink_collapse.
Qed.

(** *** The shape of the result *)

Lemma all_chars_skip_spaces (P : ascii -> Prop) (s : string) :
  Text.all_chars P s -> Text.all_chars P (JS.skip_spaces s).
Proof.
  induction s as [|c r IH]; simpl; [auto|].
  intros [Hc Hr]. destruct (JS.is_space c); simpl; auto.
Qed.

Lemma all_chars_squeezeTags (P : ascii -> Prop) (s : string) :
  Text.all_chars P s -> Text.all_chars P (Text.squeezeTags s).
Proof.
  induction s as [|c r IH]; simpl; [auto|].
  intros [Hc Hr]. specialize (IH Hr).
  destruct (Ascii.eqb_spec c ">") as [->|Hne]; [|simpl; auto].
  destruct (Text.gap (Text.squeezeTags r)) as [t|] eqn:G; simpl; [|auto].
  split; [exact Hc|].
  destruct (gap_Some _ _ G) as (c0 & r0 & E & _ & ->).
  rewrite E in IH. simpl in IH. apply all_chars_skip_spaces, IH.
Qed.

Lemma all_chars_trimEnd (P : ascii -> Prop) (s : string) :
  Text.all_chars P s -> Text.all_chars P (Text.trimEnd s).
Proof.
  induction s as [|c r IH]; simpl; [auto|].
  intros [Hc Hr]. specialize (IH Hr).
  destruct (Text.trimEnd r) as [|c' r'].
  - destruct (JS.is_space c); simpl; auto.
  - simpl in *. auto.
Qed.

Lemma all_chars_collapse (inrun : bool) (s : string) :
  Text.all_chars (fun c => JS.is_space c = true -> c = " "%char)
    (Text.collapse inrun s).
Proof.
  revert inrun. induction s as [|c r IH]; intros inrun; simpl; [exact I|].
  destruct (JS.is_space c) eqn:E.
  - destruct inrun; simpl; auto.
  - simpl. split; [|apply IH]. intros H. congruence.
Qed.

Lemma trimEnd_head (c : ascii) (r : string) :
  JS.is_space c = false -> exists r', Text.trimEnd (String c r) = String c r'.
Proof.
  intros Hc. simpl. destruct (Text.trimEnd r); rewrite ?Hc; eauto.
Qed.

Lemma trimEnd_last (s : string) (c : ascii) :
  Text.last_char (Text.trimEnd s) = Some c -> JS.is_space c = false.
Proof.
  induction s as [|a r IH]; simpl; [discriminate|].
  destruct (Text.trimEnd r) as [|c' r'] eqn:E.
  - destruct (JS.is_space a) eqn:Ea; simpl; [discriminate|]. now intros [= <-].
  - intros H. apply IH. exact H.
Qed.

(** X19.  The result of [optimizeSVG] is one line without margins: its only
    white-space characters are spaces, and it neither starts nor ends with
    white space. *)
Theorem optimizeSVG_single_line (svg : string) :
  Text.all_chars (fun c => JS.is_space c = true -> c = " "%char)
    (Isometric.optimizeSVG svg)
  /\ (forall c r, Isometric.optimizeSVG svg = String c r -> JS.is_space c = false)
  /\ (forall c, Text.last_char (Isometric.optimizeSVG svg) = Some c ->
                JS.is_space c = false).
Proof.
  unfold Isometric.optimizeSVG, Text.trim, Text.replaceSpaces.
  split; [|split].
  - apply all_chars_trimEnd, all_chars_skip_spaces, all_chars_squeezeTags,
      all_chars_collapse.
  - intros c r.
    destruct (JS.skip_spaces (Text.squeezeTags (Text.collapse false svg)))
      as [|c0 r0] eqn:E; [discriminate|].
    assert (Hc0 : JS.is_space c0 = false).
    { clear -E. revert E.
      induction (Text.squeezeTags (Text.collapse false svg)) as [|a t IH]; simpl;
        [discriminate|].
      destruct (JS.is_space a) eqn:Ea; [exact IH|]. now intros [= <- _]. }
    destruct (trimEnd_head c0 r0 Hc0) as [r' ->]. now intros [= <- _].
  - intros c. apply trimEnd_last.
Qed.

End ExportedText.
